(** * Graphite CLI: stack builder, commit actions and PR reconciliation

    A shallow embedding of
      - [src/lib/errors.ts]
      - [src/actions/commit_amend.ts] and the commit-create action
      - [src/actions/submit/prepare_branches.ts]
      - [src/wrapper-classes/abstract_stack_builder.ts]
    together with the properties the specification states about them. *)

From Stdlib Require Import Ascii.
From stdpp Require Import base option list strings gmap.

Local Open Scope string_scope.
Local Open Scope nat_scope.
Local Open Scope list_scope.

(** ** Errors ([src/lib/errors.ts]) *)

(** One constructor per exported error class, named after the class; [JsError]
    is the plain [Error] of the language, thrown by the stack builder. *)
Inductive TError : Type :=
  | ExitFailedError (message : string)
  | RebaseConflictError
  | PreconditionsFailedError (message : string)
  | ConcurrentExecutionError
  | DetachedError
  | NoBranchError (branchName : string)
  | UntrackedBranchError (branchName : string)
  | BadTrunkOperationError
  | KilledError
  | JsError (message : string).

(** The [name] field each constructor of the source sets. *)
Definition errorName (e : TError) : string :=
  match e with
  | ExitFailedError _ => "ExitFailed"
  | RebaseConflictError => "RebaseConflict"
  | PreconditionsFailedError _ => "PreconditionsFailed"
  | ConcurrentExecutionError => "ConcurrentExecutionError"
  | DetachedError => "DetachedError"
  | NoBranchError _ => "NoBranchError"
  | UntrackedBranchError _ => "UntrackedBranchError"
  | BadTrunkOperationError => "BadTrunkOperationError"
  | KilledError => "Killed"
  | JsError _ => "Error"
  end.

Definition isPreconditionsFailed (e : TError) : bool :=
  match e with PreconditionsFailedError _ => true | _ => false end.

(** ** Computations that mutate a state and may throw

    A call either returns a value or throws; in both cases the mutations done
    so far stay in the state. *)
Inductive Result (A : Type) : Type :=
  | Ok (a : A)
  | Throw (e : TError).
Arguments Ok {A} a.
Arguments Throw {A} e.

Definition isOk {A} (r : Result A) : bool :=
  match r with Ok _ => true | Throw _ => false end.

Definition M (S A : Type) : Type := S → Result A * S.

Definition ret {S A} (a : A) : M S A := λ s, (Ok a, s).
Definition throw {S A} (e : TError) : M S A := λ s, (Throw e, s).
Definition bind {S A B} (m : M S A) (k : A → M S B) : M S B :=
  λ s, match m s with
       | (Ok a, s') => k a s'
       | (Throw e, s') => (Throw e, s')
       end.
Definition get {S} : M S S := λ s, (Ok s, s).
Definition modify {S} (f : S → S) : M S unit := λ s, (Ok tt, f s).
Definition when {S} (b : bool) (m : M S unit) : M S unit :=
  if b then m else ret tt.
(** [try { body } finally { fin }]: [fin] runs on both exits of [body]; the
    outcome is that of [body] unless [fin] itself throws. *)
Definition tryFinally {S A} (body : M S A) (fin : M S unit) : M S A :=
  λ s, match body s with
       | (r, s') => match fin s' with
                    | (Ok _, s'') => (r, s'')
                    | (Throw e, s'') => (Throw e, s'')
                    end
       end.

Declare Scope m_scope.
Delimit Scope m_scope with M.
Notation "'let*' x := m 'in' k" := (bind m (λ x, k))
  (at level 10, x name, m at level 100, k at level 200) : m_scope.
Notation "m ;;; k" := (bind m (λ _, k))
  (at level 100, right associativity) : m_scope.
Local Open Scope m_scope.

(** A local mutable variable of type [L], initialised to [init], that lives
    for the duration of [m]. *)
Definition withLocal {S L A} (init : L) (m : M (S * L) A) : M S A :=
  λ s, match m (s, init) with (r, (s', _)) => (r, s') end.
(** Run [m], which does not touch the local variable. *)
Definition liftL {S L A} (m : M S A) : M (S * L) A :=
  λ sl, match m sl.1 with (r, s') => (r, (s', sl.2)) end.
Definition getL {S L} : M (S * L) L := λ sl, (Ok sl.2, sl).
Definition modifyL {S L} (f : L → L) : M (S * L) unit :=
  λ sl, (Ok tt, (sl.1, f sl.2)).

(** ** Commit actions ([commitAmendAction], [commitCreateAction]) *)
Module Commit.

Inductive SCOPE : Type :=
  | UPSTACK_EXCLUSIVE | UPSTACK_INCLUSIVE | DOWNSTACK | FULL_STACK.

(** The object handed to [context.metaCache.commit]; a field the caller
    leaves out is [None]. *)
Record TCommitOpts : Type := {
  amend : option bool;
  noEditOpt : option bool;
  message : option string;
  patch : bool
}.

(** What an action does to its collaborators, in call order. *)
Inductive Event : Type :=
  | EvAddAll
  | EvCommit (opts : TCommitOpts)
  | EvTip (text : string)
  | EvRestack (branches : list string).

Definition isCommit (e : Event) : bool :=
  match e with EvCommit _ => true | _ => false end.
Definition isTip (e : Event) : bool :=
  match e with EvTip _ => true | _ => false end.
Definition isRestack (e : Event) : bool :=
  match e with EvRestack _ => true | _ => false end.

(** The part of [TContext] the two actions use.  [W] is the state of the
    repository and of the engine's cache; the methods are those of
    [context.metaCache], [detectStagedChanges] is what the staged-changes
    precondition looks at, and [restack] is the restack engine. *)
Class TContext (W : Type) : Type := {
  addAll : W → W;
  detectStagedChanges : W → bool;
  commit : TCommitOpts → W → Result unit * W;
  currentBranchPrecondition : W → Result string;
  getRelativeStack : string → SCOPE → W → list string;
  restack : list string → W → Result unit * W
}.

Section Actions.
Context {W : Type} `{TContext W}.

(** The state threaded through an action: the repository and the calls
    made so far (newest last). *)
Definition St : Type := W * list Event.

Definition emit (e : Event) : M St unit :=
  modify (λ s : St, (s.1, s.2 ++ [e])).

Definition metaCache_addAll : M St unit :=
  emit EvAddAll ;;; modify (λ s : St, (addAll s.1, s.2)).

Definition metaCache_commit (opts : TCommitOpts) : M St unit :=
  emit (EvCommit opts) ;;;
  λ s : St, let '(r, w) := commit opts s.1 in (r, (w, s.2)).

Definition splog_tip (text : string) : M St unit := emit (EvTip text).

Definition metaCache_currentBranchPrecondition : M St string :=
  λ s : St, (currentBranchPrecondition s.1, s).

Definition metaCache_getRelativeStack (b : string) (scope : SCOPE)
  : M St (list string) :=
  λ s : St, (Ok (getRelativeStack b scope s.1), s).

Definition restackBranches (branches : list string) : M St unit :=
  emit (EvRestack branches) ;;;
  λ s : St, let '(r, w) := restack branches s.1 in (r, (w, s.2)).

(** Modelled from the spec: [ensureSomeStagedChangesPrecondition] of
    [src/lib/preconditions], which is not among the sources.  Section 4.3
    and 7: the precondition that some change is staged fails with the
    distinct precondition error when no change is staged. *)
Definition ensureSomeStagedChangesPrecondition : M St unit :=
  let* s := get in
  if detectStagedChanges s.1 then ret tt
  else throw (PreconditionsFailedError "Cannot run without staged changes.").

Record TAmendOpts : Type := {
  amend_addAll : bool;
  amend_message : option string;
  amend_noEdit : bool;
  amend_patch : bool
}.

Definition noEditTip : string :=
  "In the future, you can skip editing the commit message with the `--no-edit` flag.".

(** The object literal [commitAmendAction] passes to [commit]. *)
Definition amendCommitOpts (opts : TAmendOpts) : TCommitOpts :=
  {| amend := Some true;
     noEditOpt := Some (amend_noEdit opts);
     message := amend_message opts;
     patch := negb (amend_addAll opts) && amend_patch opts |}.

Definition commitAmendAction (opts : TAmendOpts) : M St unit :=
  when (amend_addAll opts) metaCache_addAll ;;;
  when (amend_noEdit opts) ensureSomeStagedChangesPrecondition ;;;
  metaCache_commit (amendCommitOpts opts) ;;;
  when (negb (amend_noEdit opts)) (splog_tip noEditTip) ;;;
  let* cur := metaCache_currentBranchPrecondition in
  let* above := metaCache_getRelativeStack cur UPSTACK_EXCLUSIVE in
  restackBranches above.

Record TCreateOpts : Type := {
  create_addAll : bool;
  create_patch : bool;
  create_message : option string
}.

(** The object literal [commitCreateAction] passes to [commit]. *)
Definition createCommitOpts (opts : TCreateOpts) : TCommitOpts :=
  {| amend := None;
     noEditOpt := None;
     message := create_message opts;
     patch := negb (create_addAll opts) && create_patch opts |}.

Definition commitCreateAction (opts : TCreateOpts) : M St unit :=
  when (create_addAll opts) metaCache_addAll ;;;
  ensureSomeStagedChangesPrecondition ;;;
  metaCache_commit (createCommitOpts opts) ;;;
  let* cur := metaCache_currentBranchPrecondition in
  let* above := metaCache_getRelativeStack cur UPSTACK_EXCLUSIVE in
  restackBranches above.

(** An invocation of either action. *)
Inductive TInvocation : Type :=
  | Amend (opts : TAmendOpts)
  | Create (opts : TCreateOpts).

Definition run (i : TInvocation) : M St unit :=
  match i with
  | Amend opts => commitAmendAction opts
  | Create opts => commitCreateAction opts
  end.

Definition stagesAll (i : TInvocation) : bool :=
  match i with
  | Amend opts => amend_addAll opts
  | Create opts => create_addAll opts
  end.

Definition commitOptions (i : TInvocation) : TCommitOpts :=
  match i with
  | Amend opts => amendCommitOpts opts
  | Create opts => createCommitOpts opts
  end.

(** The invocations that check for staged changes: every create, and the
    amends that keep the commit message. *)
Definition enforcesStagedChanges (i : TInvocation) : bool :=
  match i with Amend opts => amend_noEdit opts | Create _ => true end.

(** The amends that open the commit message for editing. *)
Definition isEditingAmend (i : TInvocation) : bool :=
  match i with Amend opts => negb (amend_noEdit opts) | Create _ => false end.

(** The repository after the optional stage-all step. *)
Definition afterStageAll (i : TInvocation) (w : W) : W :=
  if stagesAll i then addAll w else w.

Definition count (p : Event → bool) (l : list Event) : nat :=
  length (filter (λ e, p e = true) l).

(** The calls an invocation makes when started in repository [w]. *)
Definition eventsOf (i : TInvocation) (w : W) : list Event :=
  (run i (w, [])).2.2.

Definition outcomeOf (i : TInvocation) (w : W) : Result unit :=
  (run i (w, [])).1.

End Actions.

(** A small repository on which the actions can be run: counters of staged
    and unstaged changes, the checked-out branch, the branches above each
    branch, and whether the next commit is going to fail. *)
Record Repo : Type := {
  stagedChanges : nat;
  unstagedChanges : nat;
  checkedOut : option string;
  upstackOf : list (string * list string);
  commitBreaks : bool;
  commitsMade : nat
}.

Definition repoAddAll (w : Repo) : Repo :=
  {| stagedChanges := stagedChanges w + unstagedChanges w;
     unstagedChanges := 0;
     checkedOut := checkedOut w;
     upstackOf := upstackOf w;
     commitBreaks := commitBreaks w;
     commitsMade := commitsMade w |}.

Definition repoCommit (_ : TCommitOpts) (w : Repo) : Result unit * Repo :=
  if commitBreaks w then (Throw (ExitFailedError "git commit failed"), w)
  else (Ok tt,
        {| stagedChanges := 0;
           unstagedChanges := unstagedChanges w;
           checkedOut := checkedOut w;
           upstackOf := upstackOf w;
           commitBreaks := commitBreaks w;
           commitsMade := S (commitsMade w) |}).

Definition repoCurrentBranch (w : Repo) : Result string :=
  match checkedOut w with
  | Some b => Ok b
  | None =>
      Throw (PreconditionsFailedError
               "Cannot perform this operation without a branch checked out.")
  end.

Fixpoint assoc (k : string) (l : list (string * list string)) : list string :=
  match l with
  | [] => []
  | (k', v) :: l' => if String.eqb k k' then v else assoc k l'
  end.

Definition repoRelativeStack (b : string) (scope : SCOPE) (w : Repo)
  : list string :=
  match scope with
  | UPSTACK_EXCLUSIVE => assoc b (upstackOf w)
  | UPSTACK_INCLUSIVE => b :: assoc b (upstackOf w)
  | DOWNSTACK | FULL_STACK => [b]
  end.

#[export] Instance repoContext : TContext Repo := {
  addAll := repoAddAll;
  detectStagedChanges w := negb (Nat.eqb (stagedChanges w) 0);
  commit := repoCommit;
  currentBranchPrecondition := repoCurrentBranch;
  getRelativeStack := repoRelativeStack;
  restack _ w := (Ok tt, w)
}.

(** A repository on branch [b] with two branches stacked above it, nothing
    staged and [u] unstaged changes. *)
Definition cleanRepo (u : nat) (breaks : bool) : Repo :=
  {| stagedChanges := 0;
     unstagedChanges := u;
     checkedOut := Some "b";
     upstackOf := [("b", ["c"; "d"])];
     commitBreaks := breaks;
     commitsMade := 0 |}.

(** Invocations to run on it. *)
Definition amendWithEdit : TInvocation :=
  Amend {| amend_addAll := false; amend_message := None;
           amend_noEdit := false; amend_patch := false |}.

Definition amendNoEdit : TInvocation :=
  Amend {| amend_addAll := false; amend_message := None;
           amend_noEdit := true; amend_patch := false |}.

Definition createAll : TInvocation :=
  Create {| create_addAll := true; create_patch := false;
            create_message := Some "wip" |}.

End Commit.

(** ** PR reconciliation ([src/actions/submit/prepare_branches.ts]) *)
Module Submit.

(** Modelled from the spec: the type [TBranchPRInfo] of
    [src/lib/engine/metadata_ref], which is not among the sources.  Section 3:
    the review info of a branch is [{ number, base, isDraft, title, body,
    fingerprint }]; every field is optional, and the fingerprint, which the
    engine never reads, is left out. *)
Record TBranchPRInfo : Type := {
  number : option nat;
  base : option string;
  title : option string;
  body : option string;
  isDraft : option bool
}.

Definition emptyPRInfo : TBranchPRInfo :=
  {| number := None; base := None; title := None; body := None;
     isDraft := None |}.

Definition setTitle (t : string) (i : TBranchPRInfo) : TBranchPRInfo :=
  {| number := number i; base := base i; title := Some t; body := body i;
     isDraft := isDraft i |}.

Definition setBody (b : string) (i : TBranchPRInfo) : TBranchPRInfo :=
  {| number := number i; base := base i; title := title i; body := Some b;
     isDraft := isDraft i |}.

(** [{ ...old, ...new }] restricted to the fields a partial info defines. *)
Definition override {A} (new old : option A) : option A :=
  match new with Some _ => new | None => old end.

Definition mergePRInfo (old new : TBranchPRInfo) : TBranchPRInfo :=
  {| number := override (number new) (number old);
     base := override (base new) (base old);
     title := override (title new) (title old);
     body := override (body new) (body old);
     isDraft := override (isDraft new) (isDraft old) |}.

Inductive TStatus : Type :=
  | NOOP | CREATE | RESTACK | CHANGE | DRAFT | PUBLISH.

Definition isNOOP (s : TStatus) : bool :=
  match s with NOOP => true | _ => false end.

Global Instance TStatus_eq_dec : EqDecision TStatus.
Proof. solve_decision. Defined.

(** [TPRSubmissionAction]: [{ update: false }] or [{ update: true, prNumber }],
    each with the branch name. *)
Inductive TPRSubmissionAction : Type :=
  | NoUpdate (branchName : string)
  | Update (branchName : string) (prNumber : nat).

Definition action_branchName (a : TPRSubmissionAction) : string :=
  match a with NoUpdate b => b | Update b _ => b end.

(** The action-specific fields of a submission plan entry. *)
Inductive TSubmitFields : Type :=
  | UpdateFields (prNumber : nat) (draft : option bool)
  | CreateFields (title body : option string) (reviewers : list string)
      (draft : bool).

Record TPRSubmissionEntry : Type := {
  head : string;
  headSha : string;
  entryBase : string;
  baseSha : string;
  fields : TSubmitFields
}.

Inductive Event : Type :=
  | EvInfo (text : string)
  | EvNewline
  | EvPrompt (branchName : string)
  | EvGetPRTitle (branchName : string)
  | EvGetPRBody (branchName : string)
  | EvGetReviewers
  | EvGetPRDraftStatus
  | EvUpsertPrInfo (branchName : string) (info : TBranchPRInfo).

Definition isUpsert (e : Event) : bool :=
  match e with EvUpsertPrInfo _ _ => true | _ => false end.
(** Gathering of PR creation info: title, body, reviewers, draft status. *)
Definition isGather (e : Event) : bool :=
  match e with
  | EvGetPRTitle _ | EvGetPRBody _ | EvGetReviewers | EvGetPRDraftStatus => true
  | _ => false
  end.

(** The Metadata Store's review infos and the calls made so far. *)
Record St : Type := {
  prInfos : gmap string TBranchPRInfo;
  log : list Event
}.

Definition emit (e : Event) : M St unit :=
  modify (λ s, {| prInfos := prInfos s; log := log s ++ [e] |}).

Definition statusLabel (s : TStatus) : string :=
  match s with
  | NOOP => "No-op"
  | CREATE => "Create"
  | RESTACK => "New parent"
  | CHANGE => "Update"
  | DRAFT => "Mark as draft"
  | PUBLISH => "Ready for review"
  end.

(** The line logged per branch, colours left out. *)
Definition statusLine (s : TStatus) (branchName : string) : string :=
  ("▸ " +:+ branchName +:+ " (" +:+ statusLabel s +:+ ")")%string.

(** JavaScript truthiness of a prompt's answer; [None] is [undefined], the
    value of a prompt the user aborted. *)
Definition truthy (v : option bool) : bool :=
  match v with Some true => true | _ => false end.

Section Engine.

(** The collaborators of the engine.  Reads of [context.metaCache] that the
    engine never writes are functions of the branch name; prompts and remote
    calls are given by their outcome. *)
Variable getParentPrecondition : string → Result string.
Variable getRevision : string → string.
Variable branchMatchesRemote : string → bool.
Variable interactive : bool.
Variable promptAnswer : string → option bool.
Variable getPRTitle : string → bool → gmap string TBranchPRInfo → Result string.
Variable getPRBody : string → bool → gmap string TBranchPRInfo → Result string.
Variable getReviewers : bool → Result (list string).
Variable getPRDraftStatus : Result bool.

Definition liftResult {A} (r : Result A) : M St A := λ s, (r, s).

Definition metaCache_getParentPrecondition (b : string) : M St string :=
  liftResult (getParentPrecondition b).

Definition metaCache_getPrInfo (b : string) : M St (option TBranchPRInfo) :=
  λ s, (Ok (prInfos s !! b), s).

(** Modelled from the spec: [metaCache.upsertPrInfo], which is not among the
    sources.  Section 6, [upsertReviewInfo(branch, partialInfo)]: the fields
    the partial info defines replace the stored ones, the others stay. *)
Definition metaCache_upsertPrInfo (b : string) (info : TBranchPRInfo)
  : M St unit :=
  emit (EvUpsertPrInfo b info) ;;;
  modify (λ s,
    {| prInfos := <[b := mergePRInfo (default emptyPRInfo (prInfos s !! b)) info]>
                    (prInfos s);
       log := log s |}).

Record TActionArgs : Type := {
  branchName : string;
  updateOnly : bool;
  draft : bool;
  publish : bool;
  dryRun : bool;
  select : bool
}.

(** [parentBranchName !== prInfo?.base] *)
Definition baseDiffers (parentBranchName : string)
  (prInfo : option TBranchPRInfo) : bool :=
  match prInfo ≫= base with
  | Some b => negb (String.eqb parentBranchName b)
  | None => true
  end.

(** [v !== b] for an optional boolean [v]. *)
Definition isNot (v : option bool) (b : bool) : bool :=
  match v with Some v' => negb (Bool.eqb v' b) | None => true end.

Definition calculatedStatus (args : TActionArgs) (parentBranchName : string)
  (prInfo : option TBranchPRInfo) : TStatus :=
  match prInfo ≫= number with
  | None => if updateOnly args then NOOP else CREATE
  | Some _ =>
      if baseDiffers parentBranchName prInfo then RESTACK
      else if negb (branchMatchesRemote (branchName args)) then CHANGE
      else if draft args && isNot (prInfo ≫= isDraft) true then DRAFT
      else if publish args && isNot (prInfo ≫= isDraft) false then PUBLISH
      else NOOP
  end.

Definition selectBranch (b : string) : M St (option bool) :=
  emit (EvPrompt b) ;;; ret (promptAnswer b).

Definition getPRAction (args : TActionArgs)
  : M St (option TPRSubmissionAction) :=
  let* parentBranchName := metaCache_getParentPrecondition (branchName args) in
  let* prInfo := metaCache_getPrInfo (branchName args) in
  let prNumber := prInfo ≫= number in
  let calculated := calculatedStatus args parentBranchName prInfo in
  let* status :=
    (if negb (select args) || isNOOP calculated then ret calculated
     else let* answer := selectBranch (branchName args) in
          ret (if truthy answer then calculated else NOOP)) in
  emit (EvInfo (statusLine status (branchName args))) ;;;
  ret (if dryRun args || isNOOP status then None
       else Some (match prNumber with
                  | None => NoUpdate (branchName args)
                  | Some n => Update (branchName args) n
                  end)).

Record TCreationArgs : Type := {
  c_branchName : string;
  c_editPRFieldsInline : bool;
  c_draft : bool;
  c_publish : bool;
  c_reviewers : bool
}.

(** The value [getPRCreationInfo] returns.  [title] and [body] are read back
    from [submitInfo], whose fields are optional. *)
Record TCreationInfo : Type := {
  ci_title : option string;
  ci_body : option string;
  ci_reviewers : list string;
  ci_draft : bool
}.

Definition call_getPRTitle (b : string) (inline : bool) : M St string :=
  emit (EvGetPRTitle b) ;;; λ s, (getPRTitle b inline (prInfos s), s).

Definition call_getPRBody (b : string) (inline : bool) : M St string :=
  emit (EvGetPRBody b) ;;; λ s, (getPRBody b inline (prInfos s), s).

Definition call_getReviewers (fetchReviewers : bool) : M St (list string) :=
  emit EvGetReviewers ;;; liftResult (getReviewers fetchReviewers).

Definition call_getPRDraftStatus : M St bool :=
  emit EvGetPRDraftStatus ;;; liftResult getPRDraftStatus.

Definition enterInfoLine (b parent : string) : string :=
  ("Enter info for new pull request for " +:+ b +:+ " ▸ " +:+ parent +:+ ":")%string.

Definition getPRCreationInfo (args : TCreationArgs) : M St TCreationInfo :=
  when (c_editPRFieldsInline args)
    (emit EvNewline ;;;
     let* parent := metaCache_getParentPrecondition (c_branchName args) in
     emit (EvInfo (enterInfoLine (c_branchName args) parent))) ;;;
  let* submitInfo :=
    withLocal emptyPRInfo
      (tryFinally
         (let* t := liftL (call_getPRTitle (c_branchName args)
                             (c_editPRFieldsInline args)) in
          modifyL (setTitle t) ;;;
          let* b := liftL (call_getPRBody (c_branchName args)
                             (c_editPRFieldsInline args)) in
          modifyL (setBody b) ;;;
          getL)
         (* Save locally in case this command fails *)
         (let* info := getL in
          liftL (metaCache_upsertPrInfo (c_branchName args) info))) in
  let* reviewers := call_getReviewers (c_reviewers args) in
  let* createAsDraft :=
    (if c_publish args then ret false
     else if c_draft args || negb interactive then ret true
     else call_getPRDraftStatus) in
  ret {| ci_title := title submitInfo;
         ci_body := body submitInfo;
         ci_reviewers := reviewers;
         ci_draft := createAsDraft |}.

Record TSubmitArgs : Type := {
  branchNames : list string;
  editPRFieldsInline : bool;
  s_draft : bool;
  s_publish : bool;
  s_updateOnly : bool;
  s_dryRun : bool;
  s_reviewers : bool;
  s_select : bool
}.

(** [for await (const x of xs) { acc = step(acc, x) }] *)
Fixpoint forAwait {A B} (xs : list A) (acc : B) (step : B → A → M St B)
  : M St B :=
  match xs with
  | [] => ret acc
  | x :: rest => let* acc' := step acc x in forAwait rest acc' step
  end.

Definition actionArgs (args : TSubmitArgs) (b : string) : TActionArgs :=
  {| branchName := b;
     updateOnly := s_updateOnly args;
     draft := s_draft args;
     publish := s_publish args;
     dryRun := s_dryRun args;
     select := s_select args |}.

Definition collectActions (args : TSubmitArgs)
  : M St (list TPRSubmissionAction) :=
  forAwait (branchNames args) []
    (λ prActions b,
       let* action := getPRAction (actionArgs args b) in
       ret (match action with
            | Some a => prActions ++ [a]
            | None => prActions
            end)).

Definition entryFor (args : TSubmitArgs) (action : TPRSubmissionAction)
  : M St TPRSubmissionEntry :=
  let* parentBranchName :=
    metaCache_getParentPrecondition (action_branchName action) in
  let* fs :=
    (match action with
     | Update _ prNumber =>
         ret (UpdateFields prNumber
                (if s_draft args then Some true
                 else if s_publish args then Some false else None))
     | NoUpdate b =>
         let* info := getPRCreationInfo
                        {| c_branchName := b;
                           c_editPRFieldsInline := editPRFieldsInline args;
                           c_draft := s_draft args;
                           c_publish := s_publish args;
                           c_reviewers := s_reviewers args |} in
         ret (CreateFields (ci_title info) (ci_body info)
                (ci_reviewers info) (ci_draft info))
     end) in
  ret {| head := action_branchName action;
         headSha := getRevision (action_branchName action);
         entryBase := parentBranchName;
         baseSha := getRevision parentBranchName;
         fields := fs |}.

Definition getPRInfoForBranches (args : TSubmitArgs)
  : M St (list TPRSubmissionEntry) :=
  let* prActions := collectActions args in
  let* submissionInfo :=
    forAwait prActions []
      (λ submissionInfo action,
         let* entry := entryFor args action in
         ret (submissionInfo ++ [entry])) in
  emit EvNewline ;;;
  ret submissionInfo.

(** *** Quantities the properties are stated with *)

(** Whether [getPRAction] puts the question to the user. *)
Definition asksUser (args : TActionArgs) (calculated : TStatus) : bool :=
  select args && negb (isNOOP calculated).

(** The user is asked about the branch and does not confirm. *)
Definition declined (args : TActionArgs) (calculated : TStatus) : bool :=
  asksUser args calculated && negb (truthy (promptAnswer (branchName args))).

(** The section 4.4 table, as the specification words it, on its five
    inputs; the fifth is what is requested against the stored draft flag. *)
Record TReconcileInputs : Type := {
  hasKnownReviewNumber : bool;
  in_updateOnly : bool;
  baseMatches : bool;
  localContentMatchesRemote : bool;
  requestedDraft : bool;
  requestedPublish : bool;
  storedIsDraft : option bool
}.

Definition alreadyDraft (i : TReconcileInputs) : bool :=
  bool_decide (storedIsDraft i = Some true).
Definition alreadyPublished (i : TReconcileInputs) : bool :=
  bool_decide (storedIsDraft i = Some false).

Definition reconcile (i : TReconcileInputs) : TStatus :=
  if negb (hasKnownReviewNumber i) then
    (if in_updateOnly i then NOOP else CREATE)
  else if negb (baseMatches i) then RESTACK
  else if negb (localContentMatchesRemote i) then CHANGE
  else if requestedDraft i && negb (alreadyDraft i) then DRAFT
  else if requestedPublish i && negb (alreadyPublished i) then PUBLISH
  else NOOP.

(** The five inputs as [getPRAction] finds them for a branch. *)
Definition inputsOf (args : TActionArgs) (parentBranchName : string)
  (prInfo : option TBranchPRInfo) : TReconcileInputs :=
  {| hasKnownReviewNumber := bool_decide (is_Some (prInfo ≫= number));
     in_updateOnly := updateOnly args;
     baseMatches := bool_decide (prInfo ≫= base = Some parentBranchName);
     localContentMatchesRemote := branchMatchesRemote (branchName args);
     requestedDraft := draft args;
     requestedPublish := publish args;
     storedIsDraft := prInfo ≫= isDraft |}.

(** The title and body obtained so far when the [try] block is left. *)
Definition obtainedInfo (args : TCreationArgs)
  (store : gmap string TBranchPRInfo) : TBranchPRInfo :=
  match getPRTitle (c_branchName args) (c_editPRFieldsInline args) store with
  | Throw _ => emptyPRInfo
  | Ok t =>
      match getPRBody (c_branchName args) (c_editPRFieldsInline args) store with
      | Throw _ => setTitle t emptyPRInfo
      | Ok b => setBody b (setTitle t emptyPRInfo)
      end
  end.

(** The action [getPRAction] returns for a branch, as a function of the
    stored review infos; a branch without a parent has none. *)
Definition plannedAction (args : TActionArgs)
  (store : gmap string TBranchPRInfo) : option TPRSubmissionAction :=
  match getParentPrecondition (branchName args) with
  | Throw _ => None
  | Ok parent =>
      let prInfo := store !! branchName args in
      let calculated := calculatedStatus args parent prInfo in
      let status := if declined args calculated then NOOP else calculated in
      if dryRun args || isNOOP status then None
      else Some (match prInfo ≫= number with
                 | None => NoUpdate (branchName args)
                 | Some n => Update (branchName args) n
                 end)
  end.

(** From [s] to [s'] the calls logged were [extra], the store changed at
    most at the branches [ks], and [upsertPrInfo] was called for no other
    branch. *)
Definition touchesOnly (ks : list string) (extra : list Event) (s s' : St)
  : Prop :=
  log s' = log s ++ extra
  ∧ (∀ k, k ∉ ks → prInfos s' !! k = prInfos s !! k)
  ∧ (∀ k info, EvUpsertPrInfo k info ∈ extra → k ∈ ks).

(** Calls that neither write the store nor gather PR creation info. *)
Definition quiet (e : Event) : Prop :=
  isUpsert e = false ∧ isGather e = false.

(** The statements before the [try] block run through. *)
Definition headerPasses (args : TCreationArgs) : bool :=
  negb (c_editPRFieldsInline args)
  || isOk (getParentPrecondition (c_branchName args)).

End Engine.

(** *** A small repository to run the engine on

    [feature-a] sits on [main] and has no review yet; [feature-b] sits on
    [feature-a], and its review 12 was opened against [main].  The user
    declines every question, gives a title and aborts at the body. *)
Definition demoParent (b : string) : Result string :=
  if String.eqb b "feature-a" then Ok "main"
  else if String.eqb b "feature-b" then Ok "feature-a"
  else Throw (PreconditionsFailedError "branch has no parent").

Definition demoRevision (b : string) : string := ("rev-" +:+ b)%string.

Definition demoStore : gmap string TBranchPRInfo :=
  {[ "feature-b" := {| number := Some 12;
                       base := Some "main";
                       title := Some "Second change";
                       body := Some "";
                       isDraft := Some false |} ]}.

Definition demoState : St := {| prInfos := demoStore; log := [] |}.

Definition demoTitle (_ : string) (_ : bool) (_ : gmap string TBranchPRInfo)
  : Result string := Ok "Add feature".

Definition demoBody (_ : string) (_ : bool) (_ : gmap string TBranchPRInfo)
  : Result string := Throw KilledError.

Definition demoActionArgs (sel dry : bool) : TActionArgs :=
  {| branchName := "feature-b"; updateOnly := false; draft := false;
     publish := false; dryRun := dry; select := sel |}.

Definition demoCreationArgs : TCreationArgs :=
  {| c_branchName := "feature-a"; c_editPRFieldsInline := true;
     c_draft := false; c_publish := false; c_reviewers := false |}.

Definition demoSubmitArgs (sel dry : bool) : TSubmitArgs :=
  {| branchNames := ["feature-a"; "feature-b"];
     editPRFieldsInline := true; s_draft := false; s_publish := false;
     s_updateOnly := false; s_dryRun := dry; s_reviewers := false;
     s_select := sel |}.

End Submit.

(** ** Stack builder ([src/wrapper-classes/abstract_stack_builder.ts]) *)
Module StackBuilder.

(** A branch is identified by its name. *)
Record Branch : Type := { name : string }.

Global Instance Branch_eq_dec : EqDecision Branch.
Proof. solve_decision. Defined.

(** A built stack, as a traversal reads it: each node owns its children;
    the back-references to parents are kept as the parents' branches. *)
#[warnings="-register-all"]
Inductive stackNodeT : Type :=
  | StackNode (b : Branch) (ps : list Branch) (cs : list stackNodeT).

Definition branch (n : stackNodeT) : Branch :=
  match n with StackNode b _ _ => b end.
Definition parents (n : stackNodeT) : list Branch :=
  match n with StackNode _ ps _ => ps end.
Definition children (n : stackNodeT) : list stackNodeT :=
  match n with StackNode _ _ cs => cs end.

Record Stack : Type := { source : stackNodeT }.

Fixpoint nodeSize (n : stackNodeT) : nat :=
  match n with StackNode _ _ cs => S (list_sum (map nodeSize cs)) end.

(** The branches of a node and of everything below it, parent first. *)
Fixpoint nodeBranches (n : stackNodeT) : list Branch :=
  match n with StackNode b _ cs => b :: concat (map nodeBranches cs) end.

Definition stackBranches (s : Stack) : list Branch := nodeBranches (source s).

(** Depth-first order, last child first: a node's branch, then the whole
    subtree of its last child, then that of the child before, and so on. *)
Fixpoint lastChildFirst (n : stackNodeT) : list Branch :=
  match n with
  | StackNode b _ cs => b :: concat (reverse (map lastChildFirst cs))
  end.

(** [Array.prototype.pop]: the last element, or nothing for an empty array,
    and the array without it. *)
Definition pop {A} (l : list A) : option A * list A :=
  match reverse l with
  | [] => (None, [])
  | x :: r => (Some x, reverse r)
  end.

(** [[...new Set(xs)]]: the distinct elements in order of first occurrence. *)
Fixpoint setAddAll (seen xs : list string) : list string :=
  match xs with
  | [] => seen
  | x :: rest =>
      setAddAll (if decide (x ∈ seen) then seen else seen ++ [x]) rest
  end.

Definition uniqueNames (xs : list string) : list string := setAddAll [] xs.

(** A node object under construction: the references to other nodes are
    their addresses in the heap. *)
Record cellT : Type := {
  c_branch : Branch;
  c_parents : list nat;
  c_children : list nat
}.

Definition setChildren (refs : list nat) (c : cellT) : cellT :=
  {| c_branch := c_branch c; c_parents := c_parents c; c_children := refs |}.

(** The object graph reachable from the node at address [r], read as a
    value. *)
Fixpoint toTree (fuel : nat) (heap : list cellT) (r : nat)
  : option stackNodeT :=
  match fuel with
  | 0 => None
  | S fuel' =>
      c ← heap !! r;
      kids ← mapM (toTree fuel' heap) (c_children c);
      Some (StackNode (c_branch c)
              (omap (λ p, c_branch <$> heap !! p) (c_parents c))
              kids)
  end.

Section Builder.

(** The abstract methods of the class and the ambient lookups it makes. *)
Variable fullStackFromBranch : Branch → Stack.
Variable getStackBaseBranch : Branch → Branch.
Variable getChildrenForBranch : Branch → list Branch.
Variable allBranches : list Branch.
Variable ignoreBranches : list string.
Variable trunk : Branch.

(** *** [allStacksFromTrunk] *)

(** The branches base discovery starts from. *)
Definition isCandidate (b : Branch) : Prop :=
  (name b ∉ ignoreBranches) ∧ name b ≠ name trunk.

Global Instance isCandidate_dec b : Decision (isCandidate b).
Proof. unfold isCandidate. apply _. Defined.

Definition allStackBaseNames : list Branch :=
  let allStackBaseNames :=
    map (λ b, name (getStackBaseBranch b)) (filter isCandidate allBranches) in
  let uniqueStackBaseNames := uniqueNames allStackBaseNames in
  map (λ bn, {| name := bn |}) uniqueStackBaseNames.

Definition allStacksFromTrunk : list Stack :=
  let baseBranches := allStackBaseNames in
  map fullStackFromBranch baseBranches.

(** Modelled from the spec: the implementations of the abstract methods
    [fullStackFromBranch] and [getStackBaseBranch], which are not among the
    sources.  Sections 3, 4.1 and 8: a built stack has exactly one node per
    branch, and the stack built from a stack base holds the tracked,
    non-ignored, non-trunk branches that base discovery maps to that base. *)
Definition builderContract : Prop :=
  (∀ base, base ∈ allStackBaseNames →
     NoDup (stackBranches (fullStackFromBranch base)))
  ∧ (∀ base b, base ∈ allStackBaseNames →
       b ∈ stackBranches (fullStackFromBranch base) ↔
       b ∈ filter isCandidate allBranches ∧ getStackBaseBranch b = base).

(** *** [upstackInclusiveFromBranchWithParents] *)

(** The [while] loop.  The result is the node the search stops at, if any;
    [None] is running out of [fuel]. *)
Fixpoint findSourceNode (fuel : nat) (b : Branch)
  (possibleSourceNodes : list stackNodeT)
  : option (Result (option stackNodeT)) :=
  match fuel with
  | 0 => None
  | S fuel' =>
      match possibleSourceNodes with
      | [] => Some (Ok None)
      | _ :: _ =>
          match pop possibleSourceNodes with
          | (None, _) =>
              Some (Throw (JsError "Stack missing source node, shouldnt happen"))
          | (Some node, rest) =>
              if decide (name (branch node) = name b)
              then Some (Ok (Some node))
              else findSourceNode fuel' b (rest ++ children node)
          end
      end
  end.

Definition upstackInclusiveFromBranchWithParents (fuel : nat) (b : Branch)
  : option (Result Stack) :=
  let stack := fullStackFromBranch b in
  match findSourceNode fuel b [source stack] with
  | None => None
  | Some (Throw e) => Some (Throw e)
  | Some (Ok (Some node)) => Some (Ok {| source := node |})
  | Some (Ok None) => Some (Ok stack)
  end.

(** *** [upstackInclusiveFromBranchWithoutParents] *)

(** The [do ... while] loop over the heap of node objects.  [visited] records
    the branches in the order their children are looked up.  [None] is
    running out of [fuel]; a reference in [nodes] always points at an
    allocated node, so the lookup of [cur] does not fail. *)
Fixpoint expandNodes (fuel : nat) (heap : list cellT) (nodes : list nat)
  (visited : list Branch) : option (list cellT * list Branch) :=
  match fuel with
  | 0 => None
  | S fuel' =>
      match pop nodes with
      | (None, _) => Some (heap, visited)
      | (Some cur, rest) =>
          match heap !! cur with
          | None => None
          | Some curNode =>
              let kids := getChildrenForBranch (c_branch curNode) in
              let fresh := seq (length heap) (length kids) in
              let heap' :=
                <[cur := setChildren fresh curNode]>
                  (heap ++ map (λ child, {| c_branch := child;
                                            c_parents := [cur];
                                            c_children := [] |}) kids) in
              let nodes' := rest ++ fresh in
              let visited' := visited ++ [c_branch curNode] in
              match nodes' with
              | [] => Some (heap', visited')
              | _ :: _ => expandNodes fuel' heap' nodes' visited'
              end
          end
      end
  end.

Definition sourceCell (b : Branch) : cellT :=
  {| c_branch := b; c_parents := []; c_children := [] |}.

Definition upstackInclusiveFromBranchWithoutParents (fuel : nat) (b : Branch)
  : option Stack :=
  match expandNodes fuel [sourceCell b] [0] [] with
  | None => None
  | Some (heap, _) =>
      match toTree fuel heap 0 with
      | None => None
      | Some sourceNode => Some {| source := sourceNode |}
      end
  end.

(** The order in which the loop expands the branches. *)
Definition expansionOrder (fuel : nat) (b : Branch) : option (list Branch) :=
  snd <$> expandNodes fuel [sourceCell b] [0] [].

(** The tree that has, below every node, one child per branch the children
    lookup returns, [depth] levels deep. *)
Fixpoint unfoldStack (depth : nat) (ps : list Branch) (b : Branch)
  : stackNodeT :=
  StackNode b ps
    (match depth with
     | 0 => []
     | S d => map (unfoldStack d [b]) (getChildrenForBranch b)
     end).

(** The full tree below [b], for a [rank] that bounds the depth below every
    branch. *)
Definition fullTree (rank : Branch → nat) (ps : list Branch) (b : Branch)
  : stackNodeT :=
  unfoldStack (rank b) ps b.

(** Breadth-first order, as the specification words it: the oldest pending
    branch is expanded first and its children wait behind all others. *)
Fixpoint breadthFirstOrder (fuel : nat) (queue : list Branch) : list Branch :=
  match fuel with
  | 0 => []
  | S fuel' =>
      match queue with
      | [] => []
      | b :: rest => b :: breadthFirstOrder fuel' (rest ++ getChildrenForBranch b)
      end
  end.

(** A reference that points at a node of branch [b]. *)
Definition refersTo (heap : list cellT) (r : nat) (b : Branch) : Prop :=
  ∃ c, heap !! r = Some c ∧ c_branch c = b.

(** The node at [r] has been expanded: its children are nodes for the
    branches the children lookup returns, in that order, each with [r] as
    its only parent. *)
Definition linked (heap : list cellT) (r : nat) (c : cellT) : Prop :=
  Forall2 (λ j child, ∃ cj, heap !! j = Some cj ∧ c_branch cj = child
                            ∧ c_parents cj = [r])
    (c_children c) (getChildrenForBranch (c_branch c)).

(** The loop's invariant: the pending references are distinct and allocated,
    and every other node has been expanded. *)
Definition heapInv (heap : list cellT) (nodes : list nat) : Prop :=
  NoDup nodes
  ∧ (∀ r, r ∈ nodes → is_Some (heap !! r))
  ∧ (∀ r c, heap !! r = Some c → r ∉ nodes → linked heap r c).

(** Every node's children are exactly the branches the children lookup
    returns for it, each child pointing back at it. *)
#[warnings="-register-all"]
Inductive expanded : list Branch → stackNodeT → Prop :=
  | expanded_node b ps cs :
      map branch cs = getChildrenForBranch b →
      Forall (expanded [b]) cs →
      expanded ps (StackNode b ps cs).

End Builder.

(** *** Small stacks to run the builder on *)

Definition br (n : string) : Branch := {| name := n |}.

(** A stack [main -> a] that does not hold the branch it was asked for. *)
Definition strayStack : Stack :=
  {| source := StackNode (br "main") [] [StackNode (br "a") [br "main"] []] |}.

(** The graph [a -> b, c], [b -> d], [c -> e]. *)
Definition demoChildren (b : Branch) : list Branch :=
  if String.eqb (name b) "a" then [br "b"; br "c"]
  else if String.eqb (name b) "b" then [br "d"]
  else if String.eqb (name b) "c" then [br "e"]
  else [].

Definition demoRank (b : Branch) : nat :=
  if String.eqb (name b) "a" then 2
  else if String.eqb (name b) "b" then 1
  else if String.eqb (name b) "c" then 1
  else 0.

(** A repository with trunk [main], the stack [a -> b], the stack [c], and
    an ignored branch [tmp]. *)
Definition demoBranches : list Branch :=
  [br "main"; br "a"; br "b"; br "c"; br "tmp"].

Definition demoStackBase (b : Branch) : Branch :=
  if String.eqb (name b) "b" then br "a" else b.

Definition demoFullStack (b : Branch) : Stack :=
  if String.eqb (name (demoStackBase b)) "a"
  then {| source := StackNode (br "a") [] [StackNode (br "b") [br "a"] []] |}
  else {| source := StackNode (demoStackBase b) [] [] |}.

End StackBuilder.

(** ** Further definitions: error classes and remote references *)

(** Two errors are instances of the same class of [src/lib/errors.ts]. *)
Definition sameClass (e1 e2 : TError) : bool :=
  match e1, e2 with
  | ExitFailedError _, ExitFailedError _
  | RebaseConflictError, RebaseConflictError
  | PreconditionsFailedError _, PreconditionsFailedError _
  | ConcurrentExecutionError, ConcurrentExecutionError
  | DetachedError, DetachedError
  | NoBranchError _, NoBranchError _
  | UntrackedBranchError _, UntrackedBranchError _
  | BadTrunkOperationError, BadTrunkOperationError
  | KilledError, KilledError
  | JsError _, JsError _ => true
  | _, _ => false
  end.

(** [getRemoteSha], the second part of
    [src/actions/submit/prepare_branches.ts]. *)
Module RemoteRef.

Section Strings.

(** A JavaScript string is a sequence of code units of type [A]; [isSpace]
    is the character class [\s]. *)
Variable A : Type.
Variable isSpace : A → bool.

(** [s.search(/\s/)]: the index of the first whitespace, or -1. *)
Fixpoint search (s : list A) : Z :=
  match s with
  | [] => (-1)%Z
  | c :: rest =>
      if isSpace c then 0%Z
      else let i := search rest in
           if (i <? 0)%Z then (-1)%Z else (i + 1)%Z
  end.

(** [s.slice(0, e)]: a negative [e] counts from the end, and the bounds are
    clamped to the string. *)
Definition slice0 (s : list A) (e : Z) : list A :=
  let len := Z.of_nat (length s) in
  let final := if (e <? 0)%Z then Z.max (len + e) 0 else Z.min e len in
  take (Z.to_nat final) s.

(** The output of [gpExecSync] on [git ls-remote <remote> <ref>]. *)
Variable lsRemote : string → string → list A.

(** [x || undefined] for a string [x]: the empty string is falsy. *)
Definition orUndefined (x : list A) : option (list A) :=
  match x with [] => None | _ :: _ => Some x end.

Definition getRemoteSha (ref remote : string) : option (list A) :=
  let output := lsRemote remote ref in
  orUndefined (slice0 output (search output)).

End Strings.

(** ASCII whitespace, and an output of [git ls-remote] to run on. *)
Definition asciiSpace (c : Ascii.ascii) : bool :=
  let n := Ascii.nat_of_ascii c in
  (Nat.leb 9 n && Nat.leb n 13) || Nat.eqb n 32.

Definition tab : Ascii.ascii := Ascii.ascii_of_nat 9.
Definition newline : Ascii.ascii := Ascii.ascii_of_nat 10.

Definition demoLsRemote (_ _ : string) : list Ascii.ascii :=
  ["4"; "f"; "2"; "a"; tab; "r"; "e"; "f"; "s"; newline]%char.

Definition bareLsRemote (_ _ : string) : list Ascii.ascii :=
  ["4"; "f"; "2"; "a"]%char.

End RemoteRef.

(** ** Further definitions: repositories to run the commit actions on *)

(** A repository with one staged change and no branch checked out. *)
Definition detachedRepo : Commit.Repo :=
  {| Commit.stagedChanges := 1;
     Commit.unstagedChanges := 0;
     Commit.checkedOut := None;
     Commit.upstackOf := [];
     Commit.commitBreaks := false;
     Commit.commitsMade := 0 |}.

(** The calls of a commit action up to and including the commit. *)
Definition callsToCommit (i : Commit.TInvocation) : list Commit.Event :=
  (if Commit.stagesAll i then [Commit.EvAddAll] else [])
  ++ [Commit.EvCommit (Commit.commitOptions i)].

(** The calls once the commit has returned, up to the hint. *)
Definition callsToHint (i : Commit.TInvocation) : list Commit.Event :=
  callsToCommit i
  ++ (if Commit.isEditingAmend i then [Commit.EvTip Commit.noEditTip] else []).

(** ** Further definitions: the submission plan *)

(** The [draft] field of an update entry:
    [args.draft ? true : args.publish ? false : undefined]. *)
Definition updateDraftField (args : Submit.TSubmitArgs) : option bool :=
  if Submit.s_draft args then Some true
  else if Submit.s_publish args then Some false else None.

Definition isUpdateEntry (e : Submit.TPRSubmissionEntry) : bool :=
  match Submit.fields e with
  | Submit.UpdateFields _ _ => true
  | Submit.CreateFields _ _ _ _ => false
  end.

(** A body the user does give. *)
Definition demoBodyOk (_ : string) (_ : bool)
  (_ : gmap string Submit.TBranchPRInfo) : Result string :=
  Ok "Adds the feature.".

(** A title prompt the user aborts. *)
Definition demoTitleKilled (_ : string) (_ : bool)
  (_ : gmap string Submit.TBranchPRInfo) : Result string :=
  Throw KilledError.

(** A submission that names the trunk after a tracked branch. *)
Definition demoSubmitWithTrunk : Submit.TSubmitArgs :=
  {| Submit.branchNames := ["feature-a"; "main"; "feature-b"];
     Submit.editPRFieldsInline := true; Submit.s_draft := false;
     Submit.s_publish := false; Submit.s_updateOnly := false;
     Submit.s_dryRun := false; Submit.s_reviewers := false;
     Submit.s_select := false |}.

(** A submission with both [draft] and [publish] set, or update-only. *)
Definition demoSubmitFlags (dr pub upd : bool) : Submit.TSubmitArgs :=
  {| Submit.branchNames := ["feature-a"; "feature-b"];
     Submit.editPRFieldsInline := false; Submit.s_draft := dr;
     Submit.s_publish := pub; Submit.s_updateOnly := upd;
     Submit.s_dryRun := false; Submit.s_reviewers := false;
     Submit.s_select := false |}.

Definition demoCreationFlags (dr pub : bool) : Submit.TCreationArgs :=
  {| Submit.c_branchName := "feature-a"; Submit.c_editPRFieldsInline := false;
     Submit.c_draft := dr; Submit.c_publish := pub;
     Submit.c_reviewers := false |}.

(** What an entry of the plan owes to the action it was built for: the
    head is the action's branch, the base is the head's parent, the two
    revisions are theirs, and the kind of entry follows the kind of action. *)
Definition entryMatches (getParentPrecondition : string → Result string)
  (getRevision : string → string) (args : Submit.TSubmitArgs)
  (a : Submit.TPRSubmissionAction) (e : Submit.TPRSubmissionEntry) : Prop :=
  Submit.head e = Submit.action_branchName a
  ∧ getParentPrecondition (Submit.head e) = Ok (Submit.entryBase e)
  ∧ Submit.headSha e = getRevision (Submit.head e)
  ∧ Submit.baseSha e = getRevision (Submit.entryBase e)
  ∧ match a with
    | Submit.Update _ n =>
        Submit.fields e = Submit.UpdateFields n (updateDraftField args)
    | Submit.NoUpdate _ => isUpdateEntry e = false
    end.

(** The draft status a new PR is created with:
    [publish ? false : draft || !interactive ? true : <the user's answer>]. *)
Definition createAsDraft (interactive : bool) (getPRDraftStatus : Result bool)
  (args : Submit.TCreationArgs) : bool :=
  if Submit.c_publish args then false
  else if Submit.c_draft args || negb interactive then true
  else match getPRDraftStatus with Ok d => d | Throw _ => false end.

(** Whether the user is asked for the draft status of a new PR. *)
Definition asksDraftStatus (interactive : bool) (args : Submit.TCreationArgs)
  : bool :=
  negb (Submit.c_publish args)
  && negb (Submit.c_draft args || negb interactive).

(** The question about the draft status of a new PR. *)
Definition isDraftQuestion (e : Submit.Event) : bool :=
  match e with Submit.EvGetPRDraftStatus => true | _ => false end.

(** The engine on the small repository, with a user who gives title and
    body, and the plan it returns when both [draft] and [publish] are set. *)
Definition demoEngine (sargs : Submit.TSubmitArgs)
  : M Submit.St (list Submit.TPRSubmissionEntry) :=
  Submit.getPRInfoForBranches Submit.demoParent Submit.demoRevision
    (λ _, true) true (λ _, Some false) Submit.demoTitle demoBodyOk
    (λ _, Ok ["alice"]) (Ok false) sargs.

Definition demoPlan : list Submit.TPRSubmissionEntry :=
  match (demoEngine (demoSubmitFlags true true false) Submit.demoState).1 with
  | Ok plan => plan
  | Throw _ => []
  end.

Definition demoCreation (getTitle : string → bool →
                           gmap string Submit.TBranchPRInfo → Result string)
  (args : Submit.TCreationArgs) : M Submit.St Submit.TCreationInfo :=
  Submit.getPRCreationInfo Submit.demoParent true getTitle demoBodyOk
    (λ _, Ok ["alice"]) (Ok false) args.

Definition demoCreationInfo (args : Submit.TCreationArgs)
  : Submit.TCreationInfo :=
  {| Submit.ci_title := Some "Add feature";
     Submit.ci_body := Some "Adds the feature.";
     Submit.ci_reviewers := ["alice"];
     Submit.ci_draft := createAsDraft true (Ok false) args |}.

(** ** Further definitions: nodes and descendants *)

(** The nodes of a stack below and including a node. *)
Fixpoint subnodes (n : StackBuilder.stackNodeT) : list StackBuilder.stackNodeT :=
  match n with
  | StackBuilder.StackNode b ps cs =>
      StackBuilder.StackNode b ps cs :: concat (map subnodes cs)
  end.

(** Modelled from the spec: the implementation of the abstract method
    [getChildrenForBranch], which is not among the sources.  Sections 3 and
    4.1: a branch carries the name of its parent, and the children of a
    branch are the branches whose parent equals it, each listed once. *)
Definition childrenContract
  (getChildrenForBranch : StackBuilder.Branch → list StackBuilder.Branch)
  (parentName : StackBuilder.Branch → option string) : Prop :=
  ∀ b, NoDup (getChildrenForBranch b)
       ∧ ∀ c, c ∈ getChildrenForBranch b
              ↔ parentName c = Some (StackBuilder.name b).

(** The child nodes attached to a node are exactly the branches whose parent
    equals the node's branch, one node for each. *)
Definition attachesByParent (parentName : StackBuilder.Branch → option string)
  (n : StackBuilder.stackNodeT) : Prop :=
  NoDup (map StackBuilder.branch (StackBuilder.children n))
  ∧ ∀ c, c ∈ map StackBuilder.branch (StackBuilder.children n)
         ↔ parentName c = Some (StackBuilder.name (StackBuilder.branch n)).

(** The parents in the graph [a -> b, c], [b -> d], [c -> e]. *)
Definition demoParentName (c : StackBuilder.Branch) : option string :=
  if String.eqb (StackBuilder.name c) "b" then Some "a"
  else if String.eqb (StackBuilder.name c) "c" then Some "a"
  else if String.eqb (StackBuilder.name c) "d" then Some "b"
  else if String.eqb (StackBuilder.name c) "e" then Some "c"
  else None.

(** [descends children b x]: [x] is [b] or is reached from [b] by following
    child links. *)
Inductive descends (getChildrenForBranch :
                      StackBuilder.Branch → list StackBuilder.Branch)
  (b : StackBuilder.Branch) : StackBuilder.Branch → Prop :=
  | descends_refl : descends getChildrenForBranch b b
  | descends_child x c :
      descends getChildrenForBranch b x →
      c ∈ getChildrenForBranch x →
      descends getChildrenForBranch b c.

(** A branch graph with a cycle: [x] and [y] are each other's child. *)
Definition cyclicChildren (b : StackBuilder.Branch)
  : list StackBuilder.Branch :=
  if String.eqb (StackBuilder.name b) "x" then [StackBuilder.br "y"]
  else if String.eqb (StackBuilder.name b) "y" then [StackBuilder.br "x"]
  else [].

Definition onCycle (b : StackBuilder.Branch) : Prop :=
  StackBuilder.name b = "x" ∨ StackBuilder.name b = "y".

(** * Properties *)

(** ** Sequencing *)

Lemma bind_ok {S A B} (m : M S A) (k : A → M S B) s a s' :
  m s = (Ok a, s') → bind m k s = k a s'.
Proof. intros H. unfold bind. by rewrite H. Qed.

Lemma bind_throw {S A B} (m : M S A) (k : A → M S B) s e s' :
  m s = (Throw e, s') → bind m k s = (Throw e, s').
Proof. intros H. unfold bind. by rewrite H. Qed.

(** ** Errors *)

(** The precondition error is told apart from every other class by its
    name. *)
Lemma errorName_PreconditionsFailed (e : TError) :
  errorName e = "PreconditionsFailed" ↔ isPreconditionsFailed e = true.
Proof. by destruct e. Qed.

(** ** The commit actions *)
Section CommitProperties.
Import Commit.
Context {W : Type} `{TContext W}.

(** Unfold an action down to the collaborators' calls. *)
Ltac unfold_action :=
  unfold eventsOf, outcomeOf, run, commitAmendAction, commitCreateAction,
    metaCache_addAll, metaCache_commit, splog_tip, restackBranches,
    metaCache_currentBranchPrecondition, metaCache_getRelativeStack,
    ensureSomeStagedChangesPrecondition, afterStageAll, stagesAll,
    enforcesStagedChanges, isEditingAmend, commitOptions, emit, when, bind,
    modify, get, ret, throw, count in *.

(** Case on the next collaborator whose outcome the goal depends on. *)
Ltac next_call :=
  match goal with
  | |- context [commit ?o ?w] => destruct (commit o w) as [[[]|?] ?] eqn:?
  | |- context [currentBranchPrecondition ?w] =>
      destruct (currentBranchPrecondition w) eqn:?
  | |- context [restack ?b ?w] => destruct (restack b w) as [[[]|?] ?] eqn:?
  | |- context [detectStagedChanges ?w] => destruct (detectStagedChanges w) eqn:?
  end.

(** The full trace of an invocation whose staged-changes check fails. *)
Lemma run_without_staged_changes (i : TInvocation) (w : W) :
  enforcesStagedChanges i = true →
  detectStagedChanges (afterStageAll i w) = false →
  run i (w, []) =
    (Throw (PreconditionsFailedError "Cannot run without staged changes."),
     (afterStageAll i w, if stagesAll i then [EvAddAll] else [])).
Proof.
  destruct i as [[a m n p]|[a p m]]; unfold_action; simpl;
    intros Hn Hs; subst; destruct a; simpl in *; by rewrite Hs.
Qed.

(** An amend that edits the message reaches the commit whatever is staged. *)
Lemma editing_amend_commits (i : TInvocation) (w : W) :
  enforcesStagedChanges i = false →
  count isCommit (eventsOf i w) = 1.
Proof.
  destruct i as [[a m n p]|[a p m]]; [|done].
  unfold_action; simpl; intros ->; destruct a; simpl;
    repeat (next_call; simpl; try done).
Qed.

(** The trace of an invocation that gets through the commit and finds the
    current branch. *)
Lemma run_after_commit (i : TInvocation) (w w2 : W) (cur : string) :
  (enforcesStagedChanges i = true →
   detectStagedChanges (afterStageAll i w) = true) →
  commit (commitOptions i) (afterStageAll i w) = (Ok tt, w2) →
  currentBranchPrecondition w2 = Ok cur →
  eventsOf i w =
    (if stagesAll i then [EvAddAll] else []) ++
    [EvCommit (commitOptions i)] ++
    (if isEditingAmend i then [EvTip noEditTip] else []) ++
    [EvRestack (getRelativeStack cur UPSTACK_EXCLUSIVE w2)].
Proof.
  destruct i as [[a m n p]|[a p m]]; unfold_action; simpl;
    intros Hs Hc Hb; destruct a; simpl in *.
  all: try (destruct n; simpl in * ).
  all: try rewrite Hs by done; simpl; rewrite Hc; simpl; rewrite Hb; simpl.
  all: by destruct (restack _ _) as [[[]|?] ?].
Qed.

(** The hints an invocation emits, in every case. *)
Lemma tips_emitted (i : TInvocation) (w : W) :
  filter (λ e, isTip e = true) (eventsOf i w) =
    if isEditingAmend i && isOk (commit (commitOptions i) (afterStageAll i w)).1
    then [EvTip noEditTip] else [].
Proof.
  destruct i as [[a m n p]|[a p m]]; unfold_action; simpl;
    destruct a; simpl; try destruct n; simpl;
    repeat (next_call; simpl; try done).
Qed.

(** C4, as the code has it.  When nothing is staged after the optional
    stage-all step, commit-create, and commit-amend with [noEdit] set, fail
    with the precondition error before any commit is attempted; commit-amend
    without [noEdit] makes no such check and goes on to the commit. *)
Theorem C4_staged_changes_precondition (i : TInvocation) (w : W) :
  detectStagedChanges (afterStageAll i w) = false →
  if enforcesStagedChanges i
  then (∃ msg, outcomeOf i w = Throw (PreconditionsFailedError msg))
       ∧ count isCommit (eventsOf i w) = 0
  else count isCommit (eventsOf i w) = 1.
Proof.
  intros Hs. destruct (enforcesStagedChanges i) eqn:He.
  - unfold outcomeOf, eventsOf.
    rewrite (run_without_staged_changes i w He Hs). simpl.
    split; [by eauto|]. by destruct (stagesAll i).
  - by apply editing_amend_commits.
Qed.

(** C8. Once the commit has gone through, either action calls the restack
    engine exactly once, after the commit, on the UPSTACK_EXCLUSIVE relative
    stack of the current branch: the branches strictly above it. *)
Theorem C8_restack_upstack_exclusive (i : TInvocation) (w w2 : W)
  (cur : string) :
  (enforcesStagedChanges i = true →
   detectStagedChanges (afterStageAll i w) = true) →
  commit (commitOptions i) (afterStageAll i w) = (Ok tt, w2) →
  currentBranchPrecondition w2 = Ok cur →
  ∃ before between,
    eventsOf i w =
      before ++ [EvCommit (commitOptions i)] ++ between
      ++ [EvRestack (getRelativeStack cur UPSTACK_EXCLUSIVE w2)]
    ∧ count isRestack before = 0
    ∧ count isRestack between = 0.
Proof.
  intros Hs Hc Hb. rewrite (run_after_commit i w w2 cur Hs Hc Hb).
  eexists _, _. split; [reflexivity|].
  by destruct (stagesAll i), (isEditingAmend i).
Qed.

(** C9. The hint about [--no-edit] is emitted at most once per invocation,
    and only by an amend that opens the message for editing: exactly once
    when the commit of such an amend has gone through, and not at all when
    its commit fails.  Commit-create never emits it and neither does an amend
    with [noEdit]. *)
Theorem C9_hint_only_for_editing_amends (i : TInvocation) (w : W) :
  filter (λ e, isTip e = true) (eventsOf i w) =
    (if isEditingAmend i
        && isOk (commit (commitOptions i) (afterStageAll i w)).1
     then [EvTip noEditTip] else [])
  ∧ count isTip (eventsOf i w) =
      (if isEditingAmend i
          && isOk (commit (commitOptions i) (afterStageAll i w)).1
       then 1 else 0).
Proof.
  unfold count. rewrite tips_emitted. split; [done|]. by destruct (_ && _).
Qed.

End CommitProperties.

(** ** The PR reconciliation engine *)
Section SubmitProperties.
Import Submit.

Variable getParentPrecondition : string → Result string.
Variable getRevision : string → string.
Variable branchMatchesRemote : string → bool.
Variable interactive : bool.
Variable promptAnswer : string → option bool.
Variable getPRTitle : string → bool → gmap string TBranchPRInfo → Result string.
Variable getPRBody : string → bool → gmap string TBranchPRInfo → Result string.
Variable getReviewers : bool → Result (list string).
Variable getPRDraftStatus : Result bool.

Local Abbreviation calculatedStatus := (calculatedStatus branchMatchesRemote).
Local Abbreviation getPRAction :=
  (getPRAction getParentPrecondition branchMatchesRemote promptAnswer).
Local Abbreviation getPRCreationInfo :=
  (getPRCreationInfo getParentPrecondition interactive getPRTitle getPRBody
     getReviewers getPRDraftStatus).
Local Abbreviation getPRInfoForBranches :=
  (getPRInfoForBranches getParentPrecondition getRevision branchMatchesRemote
     interactive promptAnswer getPRTitle getPRBody getReviewers
     getPRDraftStatus).
Local Abbreviation inputsOf := (inputsOf branchMatchesRemote).
Local Abbreviation declined := (declined promptAnswer).

Lemma string_eqb_decide (a b : string) : String.eqb a b = bool_decide (a = b).
Proof.
  destruct (String.eqb_spec a b);
    [by rewrite bool_decide_eq_true_2 | by rewrite bool_decide_eq_false_2].
Qed.

(** The conditional chain of [getPRAction] is the table. *)
Lemma calculatedStatus_table args parent prInfo :
  calculatedStatus args parent prInfo = reconcile (inputsOf args parent prInfo).
Proof.
  unfold Submit.calculatedStatus, reconcile, Submit.inputsOf, baseDiffers, isNot,
    alreadyDraft, alreadyPublished; simpl.
  destruct prInfo as [[[n|] [b|] t bd [[]|]]|]; simpl; try done;
    try rewrite string_eqb_decide;
    repeat case_bool_decide; simplify_eq; simpl; try done;
    destruct (branchMatchesRemote _), (draft args), (publish args); simpl;
    try done.
  all: exfalso; match goal with H : ¬ is_Some _ |- _ => apply H; eauto end.
Qed.

(** What one call of [getPRAction] does, for a branch with a parent. *)
Lemma getPRAction_run args s parent :
  getParentPrecondition (branchName args) = Ok parent →
  let prInfo := prInfos s !! branchName args in
  let calculated := calculatedStatus args parent prInfo in
  let status := if declined args calculated then NOOP else calculated in
  getPRAction args s =
    (Ok (if dryRun args || isNOOP status then None
         else Some (match prInfo ≫= number with
                    | None => NoUpdate (branchName args)
                    | Some n => Update (branchName args) n
                    end)),
     {| prInfos := prInfos s;
        log := log s
               ++ (if asksUser args calculated
                   then [EvPrompt (branchName args)] else [])
               ++ [EvInfo (statusLine status (branchName args))] |}).
Proof.
  intros Hp; simpl.
  unfold Submit.getPRAction, metaCache_getParentPrecondition, liftResult,
    metaCache_getPrInfo, selectBranch, Submit.declined, asksUser, emit, bind,
    modify, ret.
  rewrite Hp; simpl.
  destruct (select args); simpl; [|done].
  destruct (isNOOP _) eqn:E; simpl; [done|].
  destruct (truthy _); simpl; rewrite ?E; by rewrite <- ?app_assoc.
Qed.

(** A branch without a resolvable parent stops [getPRAction] at once. *)
Lemma getPRAction_no_parent args s e :
  getParentPrecondition (branchName args) = Throw e →
  getPRAction args s = (Throw e, s).
Proof.
  intros Hp. unfold Submit.getPRAction, metaCache_getParentPrecondition,
    liftResult, bind. by rewrite Hp.
Qed.

(** Past the header, [getPRCreationInfo] calls [upsertPrInfo] exactly once,
    with what was obtained, whatever the outcome of the run. *)
Lemma getPRCreationInfo_upserts args s r s' :
  headerPasses getParentPrecondition args = true →
  getPRCreationInfo args s = (r, s') →
  let b := c_branchName args in
  let info := obtainedInfo getPRTitle getPRBody args (prInfos s) in
  prInfos s' =
    <[b := mergePRInfo (default emptyPRInfo (prInfos s !! b)) info]> (prInfos s)
  ∧ filter (λ e, isUpsert e = true) (log s') =
      filter (λ e, isUpsert e = true) (log s) ++ [EvUpsertPrInfo b info].
Proof.
  unfold headerPasses, Submit.getPRCreationInfo, obtainedInfo,
    metaCache_getParentPrecondition, metaCache_upsertPrInfo, call_getPRTitle,
    call_getPRBody, call_getReviewers, call_getPRDraftStatus, liftResult,
    withLocal, tryFinally, liftL, getL, modifyL, emit, when, bind, modify, ret.
  destruct s as [store lg]; simpl.
  destruct (c_editPRFieldsInline args); simpl;
    [destruct (getParentPrecondition _); simpl; [|done] |];
    intros _;
    (destruct (getPRTitle _ _ store); simpl;
     [destruct (getPRBody _ _ store); simpl;
      [destruct (getReviewers _); simpl;
       [destruct (c_publish args), (c_draft args), interactive; simpl;
        try destruct getPRDraftStatus; simpl | ] | ] | ]);
    intros [= <- <-]; simpl; (split; [done|]);
    rewrite !filter_app; simpl; by rewrite ?app_nil_r.
Qed.

Lemma plannedAction_branchName args store a :
  plannedAction getParentPrecondition branchMatchesRemote promptAnswer
    args store = Some a →
  action_branchName a = branchName args.
Proof.
  unfold plannedAction. destruct (getParentPrecondition _); [|done].
  destruct (_ || _); [done|]. intros [= <-]. by destruct (_ ≫= number).
Qed.

Lemma plannedAction_ok args store parent :
  getParentPrecondition (branchName args) = Ok parent →
  plannedAction getParentPrecondition branchMatchesRemote promptAnswer
    args store =
  let prInfo := store !! branchName args in
  let calculated := calculatedStatus args parent prInfo in
  let status := if declined args calculated then NOOP else calculated in
  if dryRun args || isNOOP status then None
  else Some (match prInfo ≫= number with
             | None => NoUpdate (branchName args)
             | Some n => Update (branchName args) n
             end).
Proof. intros Hp. unfold plannedAction. by rewrite Hp. Qed.

(** The first loop of [getPRInfoForBranches]: it leaves the store alone and
    collects the planned actions, or stops at a branch without a parent. *)
Lemma collect_loop args names acc s :
  ∃ extra r,
    forAwait names acc
      (λ prActions b,
         bind (getPRAction (actionArgs args b))
           (λ action, ret (match action with
                           | Some a => prActions ++ [a]
                           | None => prActions
                           end))) s
    = (r, {| prInfos := prInfos s; log := log s ++ extra |})
    ∧ Forall quiet extra
    ∧ ((∃ e, r = Throw e ∧
             Exists (λ b, getParentPrecondition b = Throw e) names)
       ∨ (r = Ok (acc ++ omap (λ b, plannedAction getParentPrecondition
                                      branchMatchesRemote promptAnswer
                                      (actionArgs args b) (prInfos s)) names)
          ∧ Forall (λ b, isOk (getParentPrecondition b) = true) names)).
Proof.
  revert acc s. induction names as [|b names IH]; intros acc s.
  - exists [], (Ok acc). simpl. rewrite !app_nil_r. by destruct s; eauto.
  - cbn [forAwait]. destruct (getParentPrecondition b) as [parent|e] eqn:Hp.
    + pose proof (getPRAction_run (actionArgs args b) s parent Hp) as Hrun.
      cbv zeta in Hrun.
      erewrite bind_ok; [|erewrite bind_ok; [|exact Hrun]; reflexivity].
      match goal with |- context [forAwait names ?a ?f ?st] =>
        destruct (IH a st) as (extra & r & Heq & Hq & Hr) end.
      rewrite Heq. clear Heq Hrun.
      cbn [prInfos log branchName actionArgs] in *.
      eexists _, r. split; [by rewrite <- (app_assoc (log s))|]. split.
      { apply Forall_app. split; [|done].
        destruct (asksUser _ _); repeat constructor. }
      destruct Hr as [(e & -> & Hex)|[-> Hall]].
      * left. exists e. eauto using Exists_cons_tl.
      * right. split; [|constructor; [by rewrite Hp|done]].
        simpl omap.
        rewrite (plannedAction_ok (actionArgs args b) _ parent Hp).
        simpl. destruct (_ || _); [done|]. by rewrite <- app_assoc.
    + erewrite bind_throw; [|erewrite bind_throw;
                              [|by apply getPRAction_no_parent]; reflexivity].
      exists [], (Throw e). rewrite app_nil_r. destruct s; simpl.
      split; [done|]. split; [constructor|]. left. exists e.
      split; [done|]. by constructor.
Qed.

Lemma touchesOnly_refl s : touchesOnly [] [] s s.
Proof.
  split; [by rewrite app_nil_r|]. split; [done|].
  intros k info Hin. by apply elem_of_nil in Hin.
Qed.

Lemma touchesOnly_trans ks1 ks2 e1 e2 s s1 s2 :
  touchesOnly ks1 e1 s s1 → touchesOnly ks2 e2 s1 s2 →
  touchesOnly (ks1 ++ ks2) (e1 ++ e2) s s2.
Proof.
  intros (Hl1 & Hs1 & Hu1) (Hl2 & Hs2 & Hu2). split; [|split].
  - by rewrite Hl2, Hl1, app_assoc.
  - intros k Hk. rewrite Hs2, Hs1; [done| |]; intros ?; apply Hk;
      apply elem_of_app; eauto.
  - intros k info [Hin|Hin]%elem_of_app; apply elem_of_app; eauto.
Qed.

Lemma touchesOnly_weaken ks ks' e s s' :
  touchesOnly ks e s s' → ks ⊆ ks' → touchesOnly ks' e s s'.
Proof.
  intros (Hl & Hs & Hu) Hsub. split; [done|]. split.
  - intros k Hk. apply Hs. intros ?. apply Hk. by apply Hsub.
  - intros k info Hin. apply Hsub. by eapply Hu.
Qed.

Lemma touchesOnly_quiet e s :
  Forall quiet e →
  touchesOnly [] e s {| prInfos := prInfos s; log := log s ++ e |}.
Proof.
  intros Hq. split; [done|]. split; [done|]. intros k info Hin.
  rewrite Forall_forall in Hq. by destruct (Hq _ Hin) as [? _].
Qed.

(** [getPRCreationInfo] writes the store at its own branch only. *)
Lemma getPRCreationInfo_frame args s r s' :
  getPRCreationInfo args s = (r, s') →
  ∃ extra, touchesOnly [c_branchName args] extra s s'.
Proof.
  unfold Submit.getPRCreationInfo,
    metaCache_getParentPrecondition, metaCache_upsertPrInfo, call_getPRTitle,
    call_getPRBody, call_getReviewers, call_getPRDraftStatus, liftResult,
    withLocal, tryFinally, liftL, getL, modifyL, emit, when, bind, modify, ret.
  destruct s as [store lg]; simpl.
  destruct (c_editPRFieldsInline args); simpl;
    [destruct (getParentPrecondition _); simpl |];
    try (destruct (getPRTitle _ _ store); simpl;
     [destruct (getPRBody _ _ store); simpl;
      [destruct (getReviewers _); simpl;
       [destruct (c_publish args), (c_draft args), interactive; simpl;
        try destruct getPRDraftStatus; simpl | ] | ] | ]);
    intros [= <- <-]; simpl;
    eexists; (split; [simpl; rewrite <- ?(app_assoc lg); reflexivity|]);
    (split; simpl;
      [intros k Hk;
       assert (c_branchName args ≠ k)
         by (intros E; apply Hk; by apply list_elem_of_singleton);
       by rewrite ?lookup_insert_ne by done
      |intros k info Hin;
       repeat (apply elem_of_cons in Hin as [Hin|Hin];
               [simplify_eq; try by apply list_elem_of_singleton|]);
       by apply elem_of_nil in Hin]).
Qed.

Local Abbreviation entryFor :=
  (entryFor getParentPrecondition getRevision interactive getPRTitle getPRBody
     getReviewers getPRDraftStatus).

(** An entry is headed by its action's branch, and building it writes the
    store at that branch only. *)
Lemma entryFor_frame args action s r s' :
  entryFor args action s = (r, s') →
  (∃ extra, touchesOnly [action_branchName action] extra s s')
  ∧ (∀ entry, r = Ok entry → head entry = action_branchName action).
Proof.
  unfold Submit.entryFor, metaCache_getParentPrecondition, liftResult.
  unfold bind at 1. destruct (getParentPrecondition _) as [parent|e].
  - destruct action as [b|b n].
    + unfold bind at 1. unfold bind at 1.
      destruct (getPRCreationInfo _ s) as [[info|e] s1] eqn:Hc;
        apply getPRCreationInfo_frame in Hc as [extra Ht];
        intros [= <- <-]; (split; [by exists extra|]);
        by intros entry [= <-].
    + intros [= <- <-]. split; [|by intros entry [= <-]].
      exists []. eapply touchesOnly_weaken; [apply touchesOnly_refl|].
      apply list_subseteq_nil.
  - intros [= <- <-]. split; [|done].
    exists []. eapply touchesOnly_weaken; [apply touchesOnly_refl|].
    apply list_subseteq_nil.
Qed.

(** The second loop: one entry per action, in order, and writes at the
    actions' branches only. *)
Lemma entries_loop args actions acc s r s' :
  forAwait actions acc
    (λ submissionInfo action,
       bind (entryFor args action)
         (λ entry, ret (submissionInfo ++ [entry]))) s = (r, s') →
  (∃ extra, touchesOnly (map action_branchName actions) extra s s')
  ∧ (∀ plan, r = Ok plan →
       map head plan = map head acc ++ map action_branchName actions).
Proof.
  revert acc s. induction actions as [|a actions IH]; intros acc s.
  - simpl. intros [= <- <-]. split; [exists []; apply touchesOnly_refl|].
    intros plan [= <-]. by rewrite app_nil_r.
  - cbn [forAwait]. unfold bind at 1. unfold bind at 1.
    destruct (entryFor args a s) as [[entry|e] s1] eqn:He;
      apply entryFor_frame in He as [[e1 Ht1] Hhead].
    + unfold ret at 1. intros Hrest.
      apply IH in Hrest as [[e2 Ht2] Hplan]. split.
      * exists (e1 ++ e2). apply (touchesOnly_trans _ _ _ _ _ _ _ Ht1 Ht2).
      * intros plan Hr. rewrite (Hplan _ Hr), map_app. simpl.
        rewrite (Hhead entry) by done. by rewrite <- app_assoc.
    + intros [= <- <-]. split; [|done]. exists e1.
      eapply touchesOnly_weaken; [done|]. simpl.
      intros x ->%list_elem_of_singleton. left.
Qed.

(** [getPRInfoForBranches] as a whole: the plan has one entry per planned
    action, and the store is written at those branches only. *)
Lemma getPRInfoForBranches_run args s r s' :
  getPRInfoForBranches args s = (r, s') →
  let planned :=
    omap (λ b, plannedAction getParentPrecondition branchMatchesRemote
                 promptAnswer (actionArgs args b) (prInfos s))
      (branchNames args) in
  (∃ extra, touchesOnly (map action_branchName planned) extra s s')
  ∧ (∀ plan, r = Ok plan → map head plan = map action_branchName planned).
Proof.
  cbv zeta.
  unfold Submit.getPRInfoForBranches, collectActions. unfold bind at 1.
  destruct (collect_loop args (branchNames args) [] s)
    as (e1 & r1 & -> & Hq & Hr).
  destruct Hr as [(e & -> & _)|[-> _]].
  - intros [= <- <-]. split; [|done]. exists e1.
    eapply touchesOnly_weaken; [by apply touchesOnly_quiet|].
    apply list_subseteq_nil.
  - rewrite app_nil_l. unfold bind at 1.
    match goal with |- context [forAwait ?l ?a ?f ?st] =>
      destruct (forAwait l a f st) as [[plan|e] s2] eqn:Hloop end;
      apply entries_loop in Hloop as [[e2 Ht2] Hplan].
    + unfold emit, modify, bind, ret. simpl. intros [= <- <-]. split.
      * exists (e1 ++ e2 ++ [EvNewline]).
        eapply touchesOnly_weaken.
        { eapply touchesOnly_trans; [by apply touchesOnly_quiet|].
          eapply touchesOnly_trans; [exact Ht2|].
          by apply (touchesOnly_quiet [EvNewline] s2); repeat constructor. }
        by rewrite app_nil_l, app_nil_r.
      * intros ? [= <-]. by apply Hplan.
    + intros [= <- <-]. split; [|done]. exists (e1 ++ e2).
      eapply touchesOnly_weaken.
      { eapply touchesOnly_trans; [by apply touchesOnly_quiet|exact Ht2]. }
      by rewrite app_nil_l.
Qed.

Lemma plannedAction_dryRun args store :
  dryRun args = true →
  plannedAction getParentPrecondition branchMatchesRemote promptAnswer
    args store = None.
Proof.
  intros Hd. unfold plannedAction. destruct (getParentPrecondition _); [|done].
  by rewrite Hd.
Qed.

(** C1. The action [getPRAction] computes for a branch is the section 4.4
    table applied to the five inputs: no known review number gives NOOP under
    update-only and CREATE otherwise; with a known number, a stored base
    other than the actual parent gives RESTACK, else content that does not
    match the remote gives CHANGE, else a requested draft on a PR not already
    draft gives DRAFT, else a requested publish on a PR not already published
    gives PUBLISH, else NOOP.  Unless the user declines, that action is the
    one [getPRAction] reports. *)
Theorem C1_getPRAction_follows_table args s parent :
  getParentPrecondition (branchName args) = Ok parent →
  let prInfo := prInfos s !! branchName args in
  let action := reconcile (inputsOf args parent prInfo) in
  calculatedStatus args parent prInfo = action
  ∧ (declined args action = false →
     getPRAction args s =
       (Ok (if dryRun args || isNOOP action then None
            else Some (match prInfo ≫= number with
                       | None => NoUpdate (branchName args)
                       | Some n => Update (branchName args) n
                       end)),
        {| prInfos := prInfos s;
           log := log s
                  ++ (if asksUser args action
                      then [EvPrompt (branchName args)] else [])
                  ++ [EvInfo (statusLine action (branchName args))] |})).
Proof.
  intros Hp prInfo action.
  assert (calculatedStatus args parent prInfo = action) as Hc
    by apply calculatedStatus_table.
  split; [done|]. intros Hd.
  rewrite (getPRAction_run _ _ parent Hp). fold prInfo. by rewrite Hc, Hd.
Qed.

(** C3. Past its header, [getPRCreationInfo] writes the title and body
    obtained so far to the Metadata Store through [upsertPrInfo], exactly
    once and on every exit path: when asking for the title or the body
    fails, and when a later step (reviewers, draft status) fails.  Whatever
    the outcome, an obtained title or body is then in the store. *)
Theorem C3_title_body_persisted_on_every_exit args s :
  headerPasses getParentPrecondition args = true →
  let b := c_branchName args in
  let inline := c_editPRFieldsInline args in
  let s' := (getPRCreationInfo args s).2 in
  filter (λ e, isUpsert e = true) (log s') =
    filter (λ e, isUpsert e = true) (log s)
    ++ [EvUpsertPrInfo b (obtainedInfo getPRTitle getPRBody args (prInfos s))]
  ∧ (∀ t, getPRTitle b inline (prInfos s) = Ok t →
          prInfos s' !! b ≫= title = Some t)
  ∧ (∀ t bd, getPRTitle b inline (prInfos s) = Ok t →
             getPRBody b inline (prInfos s) = Ok bd →
             prInfos s' !! b ≫= body = Some bd).
Proof.
  intros Hh b inline s'.
  destruct (getPRCreationInfo args s) as [r s1] eqn:Hrun.
  destruct (getPRCreationInfo_upserts _ _ _ _ Hh Hrun) as [Hstore Hlog].
  subst s'. simpl. split; [done|]. rewrite Hstore, lookup_insert_eq. simpl.
  unfold obtainedInfo. fold b inline. split.
  - intros t ->. by destruct (getPRBody _ _ _).
  - by intros t bd -> ->.
Qed.

(** C7. With per-branch selection on, a branch whose computed action is NOOP
    is not put to the user.  A branch whose computed action is not NOOP is,
    and when the user declines, [getPRAction] returns no action for it and
    leaves the store as it was; in the whole run the branch gets no
    submission entry, its stored metadata is unchanged and [upsertPrInfo] is
    not called for it. *)
Theorem C7_decline_downgrades_to_noop sargs b parent s :
  s_select sargs = true →
  getParentPrecondition b = Ok parent →
  let args := actionArgs sargs b in
  let calculated := calculatedStatus args parent (prInfos s !! b) in
  (calculated = NOOP →
   getPRAction args s =
     (Ok None, {| prInfos := prInfos s;
                  log := log s ++ [EvInfo (statusLine NOOP b)] |}))
  ∧ (calculated ≠ NOOP → truthy (promptAnswer b) = false →
     getPRAction args s =
       (Ok None, {| prInfos := prInfos s;
                    log := log s ++ [EvPrompt b; EvInfo (statusLine NOOP b)] |})
     ∧ let run := getPRInfoForBranches sargs s in
       prInfos run.2 !! b = prInfos s !! b
       ∧ (∃ extra, log run.2 = log s ++ extra
                   ∧ ∀ info, EvUpsertPrInfo b info ∉ extra)
       ∧ (∀ plan, run.1 = Ok plan → b ∉ map head plan)).
Proof.
  intros Hsel Hp args calculated.
  pose proof (getPRAction_run args s parent Hp) as Hrun. cbv zeta in Hrun.
  change (branchName args) with b in Hrun.
  fold calculated in Hrun. unfold Submit.declined, asksUser in Hrun.
  replace (select args) with true in Hrun by done.
  change (branchName args) with b in Hrun. split.
  - intros E. rewrite E in Hrun. simpl in Hrun. rewrite Hrun.
    by rewrite orb_true_r.
  - intros Hne Hans.
    assert (isNOOP calculated = false) as E by by destruct calculated.
    rewrite E, Hans in Hrun. simpl in Hrun. rewrite orb_true_r in Hrun.
    split; [done|].
    assert (b ∉ map action_branchName
                  (omap (λ b, plannedAction getParentPrecondition
                                branchMatchesRemote promptAnswer
                                (actionArgs sargs b) (prInfos s))
                     (branchNames sargs))) as Hnot.
    { intros (a & Ha & Hin)%list_elem_of_fmap.
      apply list_elem_of_omap in Hin as (b' & _ & Hb').
      pose proof (plannedAction_branchName _ _ _ Hb') as Hn. simpl in Hn.
      assert (b' = b) as -> by congruence.
      rewrite (plannedAction_ok (actionArgs sargs b) _ parent Hp) in Hb'.
      cbv zeta in Hb'.
      fold args in Hb'. change (branchName args) with b in Hb'.
      fold calculated in Hb'. unfold Submit.declined, asksUser in Hb'.
      replace (select args) with true in Hb' by done.
      change (branchName args) with b in Hb'.
      rewrite E, Hans in Hb'. simpl in Hb'. by rewrite orb_true_r in Hb'. }
    intros run. destruct run as [r s'] eqn:Erun. subst run.
    destruct (getPRInfoForBranches_run _ _ _ _ Erun)
      as [(extra & Hl & Hs & Hu) Hplan]. simpl. split; [by apply Hs|]. split.
    + exists extra. split; [done|]. intros info Hin. by apply Hnot, (Hu _ info).
    + intros plan ->. by rewrite (Hplan plan).
Qed.

(** A dry run plans nothing and writes nothing; it can only stop at a
    branch without a parent. *)
Lemma dry_run_never_writes sargs s :
  s_dryRun sargs = true →
  ∃ extra r,
    getPRInfoForBranches sargs s =
      (r, {| prInfos := prInfos s; log := log s ++ extra |})
    ∧ Forall quiet extra
    ∧ (Forall (λ b, isOk (getParentPrecondition b) = true) (branchNames sargs)
       → r = Ok []).
Proof.
  intros Hdry.
  assert (∀ l, omap (λ b, plannedAction getParentPrecondition
                            branchMatchesRemote promptAnswer
                            (actionArgs sargs b) (prInfos s)) l = []) as Hnone.
  { induction l as [|b l IH]; [done|].
    simpl. by rewrite plannedAction_dryRun. }
  unfold Submit.getPRInfoForBranches, collectActions. unfold bind at 1.
  destruct (collect_loop sargs (branchNames sargs) [] s)
    as (e1 & r1 & -> & Hq & Hr).
  destruct Hr as [(e & -> & Hex)|[-> _]].
  - exists e1, (Throw e). split; [done|]. split; [done|]. intros Hall.
    rewrite Forall_forall in Hall.
    apply Exists_exists in Hex as (b & Hin & Hb).
    specialize (Hall b Hin). by rewrite Hb in Hall.
  - rewrite Hnone. exists (e1 ++ [EvNewline]), (Ok []). simpl.
    unfold emit, modify, bind, ret. simpl.
    rewrite <- app_assoc. split; [done|]. split; [|done].
    apply Forall_app. split; [done|]. by repeat constructor.
Qed.

(** C10. A dry run over branches that all have a parent returns the empty
    submission plan, writes nothing to the Metadata Store, never calls
    [upsertPrInfo] and gathers no PR creation info, whatever the other
    flags. *)
Theorem C10_dry_run_plans_nothing sargs s :
  s_dryRun sargs = true →
  Forall (λ b, isOk (getParentPrecondition b) = true) (branchNames sargs) →
  ∃ extra,
    getPRInfoForBranches sargs s =
      (Ok [], {| prInfos := prInfos s; log := log s ++ extra |})
    ∧ Forall quiet extra.
Proof.
  intros Hdry Hall.
  destruct (dry_run_never_writes sargs s Hdry) as (extra & r & Hrun & Hq & Hr).
  exists extra. by rewrite Hrun, (Hr Hall).
Qed.

End SubmitProperties.

(** ** The stack builder *)

Section ArrayFacts.
Import StackBuilder.

Lemma pop_snoc {A} (l : list A) (x : A) : pop (l ++ [x]) = (Some x, l).
Proof. unfold pop. by rewrite reverse_snoc, reverse_involutive. Qed.

Lemma pop_nil {A} : pop (@nil A) = (None, []).
Proof. done. Qed.

(** A non-empty array ends in some element. *)
Lemma snoc_inv {A} (l : list A) : l ≠ [] → ∃ l' x, l = l' ++ [x].
Proof.
  intros Hne. destruct (reverse l) as [|x r] eqn:E.
  - apply (f_equal reverse) in E. rewrite reverse_involutive in E. done.
  - exists (reverse r), x. apply (f_equal reverse) in E.
    by rewrite reverse_involutive, reverse_cons in E.
Qed.

End ArrayFacts.

(** *** The search of [upstackInclusiveFromBranchWithParents] *)
Section SearchProperties.
Import StackBuilder.

Variable fullStackFromBranch : Branch → Stack.

(** The [throw] in the loop is never reached: an array that is not empty has
    a last element. *)
Lemma findSourceNode_never_throws fuel b nodes e :
  findSourceNode fuel b nodes ≠ Some (Throw e).
Proof.
  revert nodes. induction fuel as [|fuel IH]; intros nodes; [done|].
  simpl. destruct nodes as [|n nodes]; [done|].
  destruct (snoc_inv (n :: nodes)) as (l' & x & ->); [done|].
  rewrite pop_snoc. case_decide; [done|]. apply IH.
Qed.

(** A search that meets no node of the wanted name ends without a node,
    given fuel for one step per node. *)
Lemma findSourceNode_not_found fuel b nodes :
  list_sum (map nodeSize nodes) < fuel →
  Forall (λ n, ∀ x, x ∈ nodeBranches n → name x ≠ name b) nodes →
  findSourceNode fuel b nodes = Some (Ok None).
Proof.
  revert nodes. induction fuel as [|fuel IH]; intros nodes Hf Hall; [lia|].
  simpl. destruct nodes as [|n0 nodes0]; [done|].
  destruct (snoc_inv (n0 :: nodes0)) as (rest & node & E); [done|].
  rewrite E in *. clear E n0 nodes0. rewrite pop_snoc.
  apply Forall_app in Hall as [Hrest Hnode].
  rewrite Forall_singleton in Hnode.
  destruct node as [nb ps cs]. simpl in *.
  case_decide as Hname; [by destruct (Hnode nb); [left|]|].
  apply IH.
  - rewrite map_app, list_sum_app in *. simpl in Hf. lia.
  - apply Forall_app. split; [done|]. apply Forall_forall.
    intros c Hc x Hx. apply Hnode. right.
    apply list_elem_of_In, in_concat. exists (nodeBranches c).
    split; [apply in_map|]; by apply list_elem_of_In.
Qed.

(** The search ends, given fuel for one step per node. *)
Lemma findSourceNode_terminates fuel b nodes :
  list_sum (map nodeSize nodes) < fuel →
  is_Some (findSourceNode fuel b nodes).
Proof.
  revert nodes. induction fuel as [|fuel IH]; intros nodes Hf; [lia|].
  simpl. destruct nodes as [|n0 nodes0]; [done|].
  destruct (snoc_inv (n0 :: nodes0)) as (rest & node & E); [done|].
  rewrite E in *. clear E n0 nodes0. rewrite pop_snoc.
  case_decide; [done|]. apply IH. destruct node as [nb ps cs].
  rewrite map_app, list_sum_app in *. simpl in *. lia.
Qed.

(** When the search fails, the stack comes back as [fullStackFromBranch]
    built it, and no error is raised. *)
Lemma upstack_with_parents_silent fuel b :
  nodeSize (source (fullStackFromBranch b)) < fuel →
  (∀ x, x ∈ stackBranches (fullStackFromBranch b) → name x ≠ name b) →
  upstackInclusiveFromBranchWithParents fullStackFromBranch fuel b =
    Some (Ok (fullStackFromBranch b)).
Proof.
  intros Hf Hnone. unfold upstackInclusiveFromBranchWithParents.
  rewrite findSourceNode_not_found; [done| |].
  - simpl. lia.
  - by apply Forall_singleton.
Qed.

(** The operation never signals an error, whatever the stack. *)
Lemma upstack_with_parents_never_throws fuel b e :
  upstackInclusiveFromBranchWithParents fullStackFromBranch fuel b
  ≠ Some (Throw e).
Proof.
  unfold upstackInclusiveFromBranchWithParents.
  destruct (findSourceNode _ _ _) as [[[n|]|e']|] eqn:E; try done.
  by apply findSourceNode_never_throws in E.
Qed.

End SearchProperties.

(** *** Base discovery and [allStacksFromTrunk] *)
Section SetFacts.
Import StackBuilder.

Lemma setAddAll_elem seen xs x :
  x ∈ setAddAll seen xs ↔ x ∈ seen ∨ x ∈ xs.
Proof.
  revert seen. induction xs as [|y xs IH]; intros seen; simpl.
  - rewrite elem_of_nil. tauto.
  - rewrite IH, elem_of_cons. case_decide as Hy.
    + split; [tauto|]. intros [?|[->|?]]; tauto.
    + rewrite elem_of_app, list_elem_of_singleton. tauto.
Qed.

Lemma setAddAll_NoDup seen xs : NoDup seen → NoDup (setAddAll seen xs).
Proof.
  revert seen. induction xs as [|y xs IH]; intros seen Hnd; simpl; [done|].
  apply IH. case_decide as Hy; [done|].
  apply NoDup_app. split; [done|]. split; [|apply NoDup_singleton].
  intros x Hx ->%list_elem_of_singleton. done.
Qed.

Lemma uniqueNames_elem xs x : x ∈ uniqueNames xs ↔ x ∈ xs.
Proof. unfold uniqueNames. rewrite setAddAll_elem, elem_of_nil. tauto. Qed.

Lemma uniqueNames_NoDup xs : NoDup (uniqueNames xs).
Proof. apply setAddAll_NoDup, NoDup_nil_2. Qed.

Lemma Branch_eta (b : Branch) : {| name := name b |} = b.
Proof. by destruct b. Qed.

End SetFacts.

Section BaseDiscoveryProperties.
Import StackBuilder.

Variable fullStackFromBranch : Branch → Stack.
Variable getStackBaseBranch : Branch → Branch.
Variable allBranches : list Branch.
Variable ignoreBranches : list string.
Variable trunk : Branch.

Local Abbreviation isCandidate := (isCandidate ignoreBranches trunk).
Local Abbreviation allStackBaseNames :=
  (allStackBaseNames getStackBaseBranch allBranches ignoreBranches trunk).
Local Abbreviation allStacksFromTrunk :=
  (allStacksFromTrunk fullStackFromBranch getStackBaseBranch allBranches
     ignoreBranches trunk).

(** Base discovery lists each stack base once. *)
Lemma allStackBaseNames_NoDup : NoDup allStackBaseNames.
Proof.
  unfold StackBuilder.allStackBaseNames.
  assert (Inj (=) (=) (λ bn, {| name := bn |})) by (by intros x y [= ->]).
  apply (NoDup_fmap_2 (λ bn, {| name := bn |})), uniqueNames_NoDup.
Qed.

(** The bases listed are the stack bases of the candidate branches. *)
Lemma allStackBaseNames_elem base :
  base ∈ allStackBaseNames ↔
  ∃ b, b ∈ filter isCandidate allBranches ∧ getStackBaseBranch b = base.
Proof.
  unfold StackBuilder.allStackBaseNames. split.
  - intros (bn & -> & Hbn)%list_elem_of_fmap.
    apply uniqueNames_elem, list_elem_of_fmap in Hbn as (b & -> & Hb).
    exists b. split; [done|]. by rewrite Branch_eta.
  - intros (b & Hb & <-). apply list_elem_of_fmap.
    exists (name (getStackBaseBranch b)). split; [by rewrite Branch_eta|].
    apply uniqueNames_elem, list_elem_of_fmap. by exists b.
Qed.

Lemma allStacksFromTrunk_lookup i st :
  allStacksFromTrunk !! i = Some st ↔
  ∃ base, allStackBaseNames !! i = Some base ∧ st = fullStackFromBranch base.
Proof.
  unfold StackBuilder.allStacksFromTrunk.
  change (map fullStackFromBranch ?l) with (fullStackFromBranch <$> l).
  rewrite list_lookup_fmap. destruct (_ !! i) as [base|]; simpl.
  - split; [intros [= <-]; eauto|]. by intros (? & [= <-] & ->).
  - split; [done|]. by intros (? & ? & _).
Qed.

(** C6. [allStacksFromTrunk] returns one stack per deduplicated stack base,
    and the stacks partition the tracked branches outside the ignore set and
    the trunk: each such branch is in exactly one stack, once, and two
    stacks share no branch.  The two abstract methods are taken under the
    contract the specification gives them. *)
Theorem C6_allStacksFromTrunk_partitions :
  NoDup allBranches →
  builderContract fullStackFromBranch getStackBaseBranch allBranches
    ignoreBranches trunk →
  NoDup allStackBaseNames
  ∧ (∀ base, base ∈ allStackBaseNames ↔
       ∃ b, b ∈ filter isCandidate allBranches ∧ getStackBaseBranch b = base)
  ∧ length allStacksFromTrunk = length allStackBaseNames
  ∧ concat (map stackBranches allStacksFromTrunk)
      ≡ₚ filter isCandidate allBranches
  ∧ (∀ b, b ∈ filter isCandidate allBranches →
       ∃ i st, allStacksFromTrunk !! i = Some st ∧ b ∈ stackBranches st
               ∧ ∀ j st', allStacksFromTrunk !! j = Some st' →
                          b ∈ stackBranches st' → j = i)
  ∧ (∀ i j si sj b,
       i ≠ j →
       allStacksFromTrunk !! i = Some si →
       allStacksFromTrunk !! j = Some sj →
       b ∈ stackBranches si → b ∉ stackBranches sj).
Proof.
  intros Hall [Hnd Hfull].
  pose proof allStackBaseNames_NoDup as Hbases.
  assert (∀ i j si sj b,
            allStacksFromTrunk !! i = Some si →
            allStacksFromTrunk !! j = Some sj →
            b ∈ stackBranches si → b ∈ stackBranches sj → i = j) as Hsame.
  { intros i j si sj b (bi & Hi & ->)%allStacksFromTrunk_lookup
      (bj & Hj & ->)%allStacksFromTrunk_lookup Hbi Hbj.
    apply Hfull in Hbi as [_ Ei]; [|by eapply list_elem_of_lookup_2].
    apply Hfull in Hbj as [_ Ej]; [|by eapply list_elem_of_lookup_2].
    eapply NoDup_lookup; [exact Hbases|done|]. by rewrite Hj, <- Ej, Ei. }
  split; [done|]. split; [apply allStackBaseNames_elem|].
  split; [unfold StackBuilder.allStacksFromTrunk; by rewrite length_map|].
  split; [|split].
  - apply NoDup_Permutation.
    + unfold StackBuilder.allStacksFromTrunk.
      assert (∀ l, NoDup l → l ⊆ allStackBaseNames →
                NoDup (concat (map stackBranches (map fullStackFromBranch l))))
        as Hconcat.
      { induction l as [|base l IH]; intros Hl Hsub; [apply NoDup_nil_2|].
        apply NoDup_cons in Hl as [Hbase Hl]. simpl. apply NoDup_app.
        split; [apply Hnd, Hsub; left|]. split.
        - intros b Hb Hin.
          apply list_elem_of_In, in_concat in Hin as (bs & Hbs & Hin).
          apply in_map_iff in Hbs as (st & <- & Hst).
          apply in_map_iff in Hst as (base' & <- & Hbase').
          apply list_elem_of_In in Hin, Hbase'.
          apply Hfull in Hb as [_ E]; [|apply Hsub; left].
          apply Hfull in Hin as [_ E']; [|by apply Hsub; right].
          apply Hbase. by rewrite <- E, E'.
        - apply IH; [done|]. intros x Hx. apply Hsub. by right. }
      by apply Hconcat.
    + by apply NoDup_filter.
    + intros b. split.
      * intros Hin. apply list_elem_of_In, in_concat in Hin as (bs & Hbs & Hin).
        apply in_map_iff in Hbs as (st & <- & Hst).
        apply in_map_iff in Hst as (base & <- & Hbase).
        apply list_elem_of_In in Hin, Hbase. by apply Hfull in Hin as [? _].
      * intros Hb. apply list_elem_of_In, in_concat.
        exists (stackBranches (fullStackFromBranch (getStackBaseBranch b))).
        split.
        -- apply in_map, in_map, list_elem_of_In, allStackBaseNames_elem.
           by exists b.
        -- apply list_elem_of_In, Hfull; [|done].
           apply allStackBaseNames_elem. by exists b.
  - intros b Hb.
    assert (getStackBaseBranch b ∈ allStackBaseNames) as Hbase
      by (apply allStackBaseNames_elem; by exists b).
    pose proof Hbase as [i Hi]%list_elem_of_lookup_1.
    exists i, (fullStackFromBranch (getStackBaseBranch b)).
    assert (allStacksFromTrunk !! i
            = Some (fullStackFromBranch (getStackBaseBranch b))) as Hst
      by (apply allStacksFromTrunk_lookup; eauto).
    assert (b ∈ stackBranches (fullStackFromBranch (getStackBaseBranch b)))
      as Hin by by apply Hfull.
    split; [done|]. split; [done|]. intros j st' Hj Hb'.
    by eapply (Hsame j i st' _ b).
  - intros i j si sj b Hne Hi Hj Hbi Hbj. apply Hne.
    by apply (Hsame i j si sj b).
Qed.

End BaseDiscoveryProperties.

(** *** The expansion of [upstackInclusiveFromBranchWithoutParents] *)
Section ExpansionProperties.
Import StackBuilder.

Variable getChildrenForBranch : Branch → list Branch.

Local Abbreviation unfoldStack := (unfoldStack getChildrenForBranch).
Local Abbreviation expandNodes := (expandNodes getChildrenForBranch).
Local Abbreviation linked := (linked getChildrenForBranch).
Local Abbreviation heapInv := (heapInv getChildrenForBranch).
Local Abbreviation expanded := (expanded getChildrenForBranch).

Section Acyclic.

(** The tracked-branch graph is finite and acyclic: some rank decreases from
    every branch to each of its children. *)
Variable rank : Branch → nat.
Hypothesis rank_decreases :
  ∀ b c, c ∈ getChildrenForBranch b → rank c < rank b.

Lemma rank_0_leaf b : rank b = 0 → getChildrenForBranch b = [].
Proof.
  intros H0. destruct (getChildrenForBranch b) as [|c l] eqn:E; [done|].
  assert (rank c < rank b) by (apply rank_decreases; rewrite E; left). lia.
Qed.

(** Unfolding deeper than the rank changes nothing. *)
Lemma unfoldStack_stable n m ps b :
  rank b ≤ n → rank b ≤ m → unfoldStack n ps b = unfoldStack m ps b.
Proof.
  revert m ps b. induction n as [|n IH]; intros m ps b Hn Hm.
  - destruct m as [|m]; [done|]. simpl. by rewrite rank_0_leaf by lia.
  - destruct m as [|m]; simpl.
    + by rewrite rank_0_leaf by lia.
    + f_equal. apply map_ext_in. intros c Hc%list_elem_of_In.
      apply rank_decreases in Hc. apply IH; lia.
Qed.

Local Abbreviation fullTree := (fullTree getChildrenForBranch rank).

Lemma fullTree_eq ps b :
  fullTree ps b =
    StackNode b ps (map (fullTree [b]) (getChildrenForBranch b)).
Proof.
  unfold StackBuilder.fullTree. destruct (rank b) as [|n] eqn:E; simpl.
  - by rewrite rank_0_leaf.
  - f_equal. apply map_ext_in. intros c Hc%list_elem_of_In.
    apply rank_decreases in Hc. apply unfoldStack_stable; lia.
Qed.

Lemma fullTree_size ps b :
  nodeSize (fullTree ps b) =
    S (list_sum (map (λ c, nodeSize (fullTree [] c)) (getChildrenForBranch b))).
Proof.
  rewrite fullTree_eq. simpl. f_equal. rewrite map_map. f_equal.
  apply map_ext. intros c. by rewrite (fullTree_eq [b]), (fullTree_eq []).
Qed.

Lemma fullTree_order ps b :
  lastChildFirst (fullTree ps b) =
    b :: concat (reverse (map (λ c, lastChildFirst (fullTree [] c))
                            (getChildrenForBranch b))).
Proof.
  rewrite fullTree_eq. simpl. f_equal. rewrite map_map. do 2 f_equal.
  apply map_ext. intros c. by rewrite (fullTree_eq [b]), (fullTree_eq []).
Qed.

(** The full tree has, below every node, exactly the looked-up children. *)
Lemma fullTree_expanded ps b : expanded ps (fullTree ps b).
Proof.
  remember (rank b) as n eqn:E. revert ps b E.
  induction n as [n IH] using lt_wf_ind. intros ps b ->.
  rewrite fullTree_eq. constructor.
  - rewrite map_map. rewrite <- (map_id (getChildrenForBranch b)) at 2.
    apply map_ext. intros c. by rewrite fullTree_eq.
  - apply Forall_forall. intros t Ht%list_elem_of_In.
    apply in_map_iff in Ht as (c & <- & Hc%list_elem_of_In).
    by apply (IH (rank c)); [apply rank_decreases|].
Qed.

(** **** One iteration of the loop *)

Section Step.

Variable heap : list cellT.
Variable cur : nat.
Variable curNode : cellT.
Hypothesis cur_allocated : heap !! cur = Some curNode.

Let kids := getChildrenForBranch (c_branch curNode).
Let fresh := seq (length heap) (length kids).
Let newCell (child : Branch) : cellT :=
  {| c_branch := child; c_parents := [cur]; c_children := [] |}.
Let heap' := <[cur := setChildren fresh curNode]> (heap ++ (newCell <$> kids)).

Lemma cur_lt : cur < length heap.
Proof. by eapply lookup_lt_Some. Qed.

(** Nodes allocated before keep their branch and parents. *)
Lemma step_keeps r c :
  heap !! r = Some c →
  ∃ c', heap' !! r = Some c' ∧ c_branch c' = c_branch c
        ∧ c_parents c' = c_parents c.
Proof.
  intros Hr. pose proof cur_lt. pose proof (lookup_lt_Some _ _ _ Hr).
  unfold heap'. destruct (decide (r = cur)) as [->|Hne].
  - rewrite list_lookup_insert_eq by (rewrite length_app; lia).
    rewrite cur_allocated in Hr. injection Hr as <-. eauto.
  - rewrite list_lookup_insert_ne, lookup_app_l by done. eauto.
Qed.

(** The children are allocated at the end of the heap, in order. *)
Lemma step_fresh k child :
  kids !! k = Some child → heap' !! (length heap + k) = Some (newCell child).
Proof.
  intros Hk. pose proof cur_lt. unfold heap'.
  rewrite list_lookup_insert_ne by lia.
  rewrite lookup_app_r by lia.
  replace (length heap + k - length heap) with k by lia.
  by rewrite list_lookup_fmap, Hk.
Qed.

Lemma step_length : length heap' = length heap + length kids.
Proof. unfold heap'. by rewrite length_insert, length_app, length_fmap. Qed.

Lemma step_linked_cur : linked heap' cur (setChildren fresh curNode).
Proof.
  unfold StackBuilder.linked. simpl. fold kids.
  apply Forall2_same_length_lookup. split; [by unfold fresh; rewrite length_seq|].
  intros k j child Hj Hk. unfold fresh in Hj.
  apply lookup_seq in Hj as [-> _]. exists (newCell child).
  by rewrite (step_fresh k child).
Qed.

Lemma step_linked_mono r c : linked heap r c → linked heap' r c.
Proof.
  unfold StackBuilder.linked. intros Hl. eapply Forall2_impl; [exact Hl|].
  intros j child (cj & Hj & Hb & Hp).
  destruct (step_keeps j cj Hj) as (cj' & Hj' & Hb' & Hp').
  exists cj'. by rewrite Hb', Hp'.
Qed.

(** The invariant carries over to the next iteration. *)
Lemma step_inv rest :
  heapInv heap (rest ++ [cur]) → heapInv heap' (rest ++ fresh).
Proof.
  intros (Hnd & Halloc & Hdone). pose proof cur_lt.
  apply NoDup_app in Hnd as (Hrest & Hcur & _).
  assert (∀ r, r ∈ rest → r < length heap) as Hlt.
  { intros r Hr. apply lookup_lt_is_Some, Halloc, elem_of_app. by left. }
  split; [|split].
  - apply NoDup_app. split; [done|]. split; [|apply NoDup_seq].
    intros r Hr Hf%elem_of_seq. apply Hlt in Hr. lia.
  - intros r [Hr|Hr]%elem_of_app.
    + destruct (Halloc r) as [c Hc]; [apply elem_of_app; by left|].
      destruct (step_keeps r c Hc) as (c' & -> & _). done.
    + apply lookup_lt_is_Some. rewrite step_length.
      apply elem_of_seq in Hr. lia.
  - intros r c Hr Hnot.
    assert (r < length heap) as Hrlt.
    { apply lookup_lt_Some in Hr. rewrite step_length in Hr.
      destruct (decide (r < length heap)); [done|]. exfalso.
      apply Hnot, elem_of_app. right. apply elem_of_seq. lia. }
    destruct (decide (r = cur)) as [->|Hne].
    + unfold heap' in Hr.
      rewrite list_lookup_insert_eq in Hr by (rewrite length_app; lia).
      injection Hr as <-. apply step_linked_cur.
    + unfold heap' in Hr.
      rewrite list_lookup_insert_ne, lookup_app_l in Hr by done.
      apply step_linked_mono, Hdone; [done|].
      intros [Hin|Hin%list_elem_of_singleton]%elem_of_app; [|done].
      apply Hnot, elem_of_app. by left.
Qed.

End Step.

(** **** The whole loop *)

Local Abbreviation sz := (λ c, nodeSize (fullTree [] c)).
Local Abbreviation ord := (λ c, lastChildFirst (fullTree [] c)).

(** Started on pending nodes for the branches [bs], with fuel for one
    iteration per node still to come, the loop ends with every node
    expanded, having visited the branches depth first, last pending node
    first. *)
Lemma expandNodes_run fuel heap nodes bs visited :
  heapInv heap nodes →
  Forall2 (refersTo heap) nodes bs →
  list_sum (map sz bs) < fuel →
  ∃ heap',
    expandNodes fuel heap nodes visited =
      Some (heap', visited ++ concat (reverse (map ord bs)))
    ∧ heapInv heap' []
    ∧ (∀ r c, heap !! r = Some c →
         ∃ c', heap' !! r = Some c' ∧ c_branch c' = c_branch c
               ∧ c_parents c' = c_parents c).
Proof.
  revert heap nodes bs visited.
  induction fuel as [|fuel IH]; intros heap nodes bs visited Hinv Hrefs Hfuel;
    [lia|].
  cbn [StackBuilder.expandNodes].
  destruct (decide (nodes = [])) as [->|Hne].
  { apply Forall2_nil_inv_l in Hrefs as ->. exists heap. simpl.
    rewrite app_nil_r. split; [done|]. split; [done|]. eauto. }
  destruct (snoc_inv nodes Hne) as (rest & cur & ->). rewrite pop_snoc.
  apply Forall2_app_inv_l in Hrefs as (bsr & bc & Hrest & Hcur & ->).
  apply Forall2_cons_inv_l in Hcur as (b & ? & (c & Hc & <-) & Hnil & ->).
  apply Forall2_nil_inv_l in Hnil as ->.
  rewrite Hc. cbv zeta.
  pose proof (step_inv heap cur c Hc rest Hinv) as Hinv'.
  pose proof (step_keeps heap cur c Hc) as Hkeep.
  pose proof (step_fresh heap cur c Hc) as Hfresh.
  cbv zeta in Hinv', Hkeep, Hfresh.
  change (map ?f (getChildrenForBranch (c_branch c)))
    with (f <$> getChildrenForBranch (c_branch c)).
  set (kids := getChildrenForBranch (c_branch c)) in *.
  set (fresh := seq (length heap) (length kids)) in *.
  set (heap' := <[cur := setChildren fresh c]> (heap ++ _)) in *.
  assert (Forall2 (refersTo heap') (rest ++ fresh) (bsr ++ kids)) as Hrefs'.
  { apply Forall2_app.
    - eapply Forall2_impl; [exact Hrest|]. intros r b' (c' & Hr & <-).
      destruct (Hkeep r c' Hr) as (c'' & ? & ? & _). by exists c''.
    - apply Forall2_same_length_lookup.
      split; [by unfold fresh; rewrite length_seq|].
      intros k j child Hj Hk. apply lookup_seq in Hj as [-> _].
      eexists. by rewrite (Hfresh k child Hk). }
  assert (sz (c_branch c) = S (list_sum (map sz kids))) as Hsz
    by apply fullTree_size.
  assert (ord (c_branch c) = c_branch c :: concat (reverse (map ord kids)))
    as Hord by apply fullTree_order.
  assert (visited ++ concat (reverse (map ord (bsr ++ [c_branch c])))
          = (visited ++ [c_branch c])
              ++ concat (reverse (map ord (bsr ++ kids)))) as Hvisit.
  { rewrite !map_app, !reverse_app, !concat_app. simpl.
    rewrite Hord, app_nil_r. by rewrite <- !app_assoc. }
  rewrite Hvisit.
  rewrite map_app, list_sum_app in Hfuel. simpl in Hfuel.
  destruct (rest ++ fresh) as [|n0 nodes0] eqn:Enodes.
  - apply Forall2_nil_inv_l in Hrefs'. rewrite Hrefs'. simpl.
    rewrite app_nil_r. exists heap'. split; [done|]. split; [done|]. eauto.
  - destruct (IH heap' (n0 :: nodes0) (bsr ++ kids) (visited ++ [c_branch c]))
      as (heap'' & Hrun & Hfinal & Hkeep'); [done|done| |].
    { rewrite map_app, list_sum_app. lia. }
    exists heap''. split; [done|]. split; [done|].
    intros r c0 Hr. destruct (Hkeep r c0 Hr) as (c1 & Hr1 & Hb1 & Hp1).
    destruct (Hkeep' r c1 Hr1) as (c2 & Hr2 & Hb2 & Hp2).
    exists c2. by rewrite Hb2, Hp2.
Qed.

Lemma list_sum_elem (l : list nat) k x : l !! k = Some x → x ≤ list_sum l.
Proof.
  revert k. induction l as [|y l IH]; intros [|k] Hk; simpl in *; try done.
  - injection Hk as ->. lia.
  - apply IH in Hk. lia.
Qed.

(** Reading back a heap in which every node has been expanded gives the
    full tree below the node read. *)
Lemma toTree_fullTree heap fuel r c :
  (∀ r c, heap !! r = Some c → linked heap r c) →
  heap !! r = Some c →
  sz (c_branch c) ≤ fuel →
  toTree fuel heap r =
    Some (fullTree (omap (λ p, c_branch <$> heap !! p) (c_parents c))
            (c_branch c)).
Proof.
  intros Hall. revert r c.
  induction fuel as [|fuel IH]; intros r c Hr Hfuel.
  { rewrite fullTree_size in Hfuel. lia. }
  cbn [toTree]. rewrite Hr. simpl.
  rewrite fullTree_size in Hfuel.
  assert (mapM (toTree fuel heap) (c_children c)
          = Some (fullTree [c_branch c] <$> getChildrenForBranch (c_branch c)))
    as ->.
  { apply mapM_Some. apply Forall2_fmap_r.
    pose proof (Hall r c Hr) as Hl. unfold StackBuilder.linked in Hl.
    apply Forall2_same_length_lookup. split; [by eapply Forall2_length|].
    intros k j child Hj Hk.
    destruct (Forall2_lookup_lr _ _ _ _ _ _ Hl Hj Hk) as (cj & Hcj & <- & Hp).
    rewrite (IH j cj Hcj).
    - rewrite Hp. simpl. by rewrite Hr.
    - assert (sz (c_branch cj) ≤ list_sum (map sz (getChildrenForBranch
                                                      (c_branch c)))).
      { apply (list_sum_elem _ k).
        change (map ?f ?l) with (f <$> l). by rewrite list_lookup_fmap, Hk. }
      lia. }
  simpl. by rewrite (fullTree_eq _ (c_branch c)).
Qed.

(** In the full tree every node has, as its children, nodes for the branches
    the children lookup returns for its branch, in that order. *)
Lemma fullTree_node_children ps b n :
  n ∈ subnodes (fullTree ps b) →
  map branch (children n) = getChildrenForBranch (branch n).
Proof.
  remember (rank b) as k eqn:E. revert ps b E.
  induction k as [k IH] using lt_wf_ind. intros ps b -> Hn.
  rewrite fullTree_eq in Hn. simpl in Hn.
  apply elem_of_cons in Hn as [->|Hn].
  - simpl. rewrite map_map.
    rewrite <- (map_id (getChildrenForBranch b)) at 2.
    apply map_ext. intros c. by rewrite fullTree_eq.
  - apply list_elem_of_In, in_concat in Hn as (l & Hl & Hn).
    rewrite map_map in Hl. apply in_map_iff in Hl as (c & <- & Hc).
    apply (IH (rank c)) with (ps := [b]) (b := c);
      [by apply rank_decreases, list_elem_of_In|done|by apply list_elem_of_In].
Qed.

(** C5, as the code has it.  On a finite acyclic tracked-branch graph the
    expansion terminates and returns a fresh tree whose source node is the
    given branch with no parent links, in which every node's children are
    exactly the branches the children lookup returns for it, each pointing
    back at it; when the children lookup lists the branches whose parent
    equals the branch asked about, the child nodes attached to a node are
    exactly the branches whose parent equals the node's branch.  The pending
    nodes are taken last in, first out: the expansion is depth first, last
    child first, not breadth first. *)
Theorem C5_expansion_builds_full_tree (parentName : Branch → option string)
  (b : Branch) (fuel : nat) :
  nodeSize (fullTree [] b) < fuel →
  upstackInclusiveFromBranchWithoutParents getChildrenForBranch fuel b =
    Some {| source := fullTree [] b |}
  ∧ branch (fullTree [] b) = b
  ∧ parents (fullTree [] b) = []
  ∧ expanded [] (fullTree [] b)
  ∧ (childrenContract getChildrenForBranch parentName →
     Forall (attachesByParent parentName) (subnodes (fullTree [] b)))
  ∧ expansionOrder getChildrenForBranch fuel b =
      Some (lastChildFirst (fullTree [] b)).
Proof.
  intros Hfuel.
  destruct (expandNodes_run fuel [sourceCell b] [0] [b] [])
    as (heap' & Hrun & (_ & _ & Hdone) & Hkeep).
  { split; [apply NoDup_singleton|]. split.
    - intros r ->%list_elem_of_singleton. by eexists.
    - intros [|r] c Hr Hnot; [by destruct Hnot; left|done]. }
  { constructor; [by eexists|constructor]. }
  { simpl. lia. }
  destruct (Hkeep 0 (sourceCell b) eq_refl) as (c0 & H0 & Hb0 & Hp0).
  simpl in Hrun, Hb0, Hp0. rewrite app_nil_r in Hrun.
  unfold upstackInclusiveFromBranchWithoutParents, expansionOrder.
  rewrite Hrun. simpl.
  rewrite (toTree_fullTree heap' fuel 0 c0);
    [|intros r c Hr; apply Hdone; [done|apply not_elem_of_nil]
     |done|rewrite Hb0; lia].
  rewrite Hb0, Hp0. simpl.
  split; [done|]. split; [by rewrite fullTree_eq|].
  split; [by rewrite fullTree_eq|]. split; [apply fullTree_expanded|].
  split; [|done]. intros Hcontract. apply Forall_forall. intros n Hn.
  unfold attachesByParent. rewrite (fullTree_node_children [] b n Hn).
  apply Hcontract.
Qed.

End Acyclic.

End ExpansionProperties.

(** ** The properties on concrete repositories *)

Section CommitExamples.
Import Commit.

(** An amend that edits the message, with nothing staged: the commit is made
    and the action succeeds instead of failing the precondition. *)
Lemma C4_amend_with_edit_commits_unstaged :
  ¬ (detectStagedChanges (afterStageAll amendWithEdit (cleanRepo 0 false)) = false →
     (∃ msg, outcomeOf amendWithEdit (cleanRepo 0 false)
             = Throw (PreconditionsFailedError msg))
     ∧ count isCommit (eventsOf amendWithEdit (cleanRepo 0 false)) = 0).
Proof. intros H. destruct (H eq_refl) as [_ Hc]. vm_compute in Hc. lia. Qed.

Lemma C4_staged_changes_precondition_witness :
  detectStagedChanges (afterStageAll amendNoEdit (cleanRepo 2 false)) = false
  ∧ (∃ msg, outcomeOf amendNoEdit (cleanRepo 2 false)
            = Throw (PreconditionsFailedError msg))
  ∧ count isCommit (eventsOf amendNoEdit (cleanRepo 2 false)) = 0.
Proof.
  split; [reflexivity|].
  exact (C4_staged_changes_precondition amendNoEdit (cleanRepo 2 false) eq_refl).
Defined.

Lemma C8_restack_upstack_exclusive_witness :
  ∃ before between,
    eventsOf createAll (cleanRepo 2 false) =
      before ++ [EvCommit (commitOptions createAll)] ++ between
      ++ [EvRestack ["c"; "d"]]
    ∧ count isRestack before = 0
    ∧ count isRestack between = 0.
Proof.
  exact (C8_restack_upstack_exclusive createAll (cleanRepo 2 false)
           (commit (commitOptions createAll)
              (afterStageAll createAll (cleanRepo 2 false))).2
           "b" (λ _, eq_refl) eq_refl eq_refl).
Defined.

(** An amend whose commit fails stops there: no hint, no restack. *)
Example amend_with_failing_commit :
  eventsOf amendWithEdit (cleanRepo 0 true)
    = [EvCommit (commitOptions amendWithEdit)]
  ∧ outcomeOf amendWithEdit (cleanRepo 0 true)
    = Throw (ExitFailedError "git commit failed").
Proof. split; reflexivity. Qed.

(** An amend that opens the message for editing and whose commit fails: the
    action ends with the commit's error before the hint, so this invocation
    emits no hint at all, not one. *)
Lemma C9_failed_amend_emits_no_hint :
  isEditingAmend amendWithEdit = true
  ∧ outcomeOf amendWithEdit (cleanRepo 0 true)
    = Throw (ExitFailedError "git commit failed")
  ∧ count isTip (eventsOf amendWithEdit (cleanRepo 0 true)) = 0
  ∧ count isTip (eventsOf amendWithEdit (cleanRepo 0 true)) ≠ 1.
Proof. split; [reflexivity|]. split; [reflexivity|]. by split. Qed.

(** An amend that edits the message emits the hint once. *)
Example amend_with_edit_events :
  eventsOf amendWithEdit (cleanRepo 0 false)
    = [EvCommit (commitOptions amendWithEdit); EvTip noEditTip;
       EvRestack ["c"; "d"]].
Proof. reflexivity. Qed.

End CommitExamples.

Section SubmitExamples.
Import Submit.

Local Abbreviation demoGetPRAction :=
  (getPRAction demoParent (λ _, true) (λ _, Some false)).
Local Abbreviation demoGetPRCreationInfo :=
  (getPRCreationInfo demoParent true demoTitle demoBody (λ _, Ok [])
     (Ok true)).
Local Abbreviation demoGetPRInfoForBranches :=
  (getPRInfoForBranches demoParent demoRevision (λ _, true) true
     (λ _, Some false) demoTitle demoBody (λ _, Ok []) (Ok true)).

(** The four cases section 8 of the specification lists. *)
Example reconcile_create :
  reconcile {| hasKnownReviewNumber := false; in_updateOnly := false;
               baseMatches := false; localContentMatchesRemote := false;
               requestedDraft := false; requestedPublish := false;
               storedIsDraft := None |} = CREATE.
Proof. reflexivity. Qed.

Example calculatedStatus_restack :
  calculatedStatus (λ _, true) (demoActionArgs false false) "feature-a"
    (Some {| number := Some 12; base := Some "main"; title := None;
             body := None; isDraft := Some false |}) = RESTACK.
Proof. reflexivity. Qed.

Example calculatedStatus_change :
  calculatedStatus (λ _, false) (demoActionArgs false false) "feature-a"
    (Some {| number := Some 12; base := Some "feature-a"; title := None;
             body := None; isDraft := Some false |}) = CHANGE.
Proof. reflexivity. Qed.

Example calculatedStatus_noop :
  calculatedStatus (λ _, true) (demoActionArgs false false) "feature-a"
    (Some {| number := Some 12; base := Some "feature-a"; title := None;
             body := None; isDraft := Some false |}) = NOOP.
Proof. reflexivity. Qed.

Lemma C1_getPRAction_follows_table_witness :
  calculatedStatus (λ _, true) (demoActionArgs false false) "feature-a"
    (demoStore !! "feature-b") = RESTACK
  ∧ demoGetPRAction (demoActionArgs false false) demoState =
      (Ok (Some (Update "feature-b" 12)),
       {| prInfos := demoStore;
          log := [EvInfo (statusLine RESTACK "feature-b")] |}).
Proof.
  destruct (C1_getPRAction_follows_table demoParent (λ _, true)
              (λ _, Some false) (demoActionArgs false false) demoState
              "feature-a" eq_refl) as [Hc Hrun].
  split; [exact Hc|]. exact (Hrun eq_refl).
Defined.

Lemma C3_title_body_persisted_on_every_exit_witness :
  (demoGetPRCreationInfo demoCreationArgs demoState).1 = Throw KilledError
  ∧ prInfos (demoGetPRCreationInfo demoCreationArgs demoState).2
      !! "feature-a" ≫= title = Some "Add feature".
Proof.
  split; [reflexivity|].
  exact (proj1 (proj2 (C3_title_body_persisted_on_every_exit demoParent true
                         demoTitle demoBody (λ _, Ok []) (Ok true)
                         demoCreationArgs demoState eq_refl))
           "Add feature" eq_refl).
Defined.

Lemma C7_decline_downgrades_to_noop_witness :
  demoGetPRAction (demoActionArgs true false) demoState =
    (Ok None,
     {| prInfos := demoStore;
        log := [EvPrompt "feature-b";
                EvInfo (statusLine NOOP "feature-b")] |})
  ∧ prInfos (demoGetPRInfoForBranches (demoSubmitArgs true false) demoState).2
      !! "feature-b" = demoStore !! "feature-b"
  ∧ ∀ plan,
      (demoGetPRInfoForBranches (demoSubmitArgs true false) demoState).1
        = Ok plan →
      "feature-b" ∉ map head plan.
Proof.
  destruct (C7_decline_downgrades_to_noop demoParent demoRevision (λ _, true)
              true (λ _, Some false) demoTitle demoBody (λ _, Ok []) (Ok true)
              (demoSubmitArgs true false) "feature-b" "feature-a" demoState
              eq_refl eq_refl) as [_ H].
  destruct H as (Hact & Hstore & _ & Hplan);
    [by vm_compute|reflexivity|].
  split; [exact Hact|]. split; [exact Hstore|exact Hplan].
Defined.

Lemma C10_dry_run_plans_nothing_witness :
  ∃ extra,
    demoGetPRInfoForBranches (demoSubmitArgs true true) demoState =
      (Ok [], {| prInfos := demoStore; log := extra |})
    ∧ Forall quiet extra.
Proof.
  apply (C10_dry_run_plans_nothing demoParent demoRevision (λ _, true) true
           (λ _, Some false) demoTitle demoBody (λ _, Ok []) (Ok true)
           (demoSubmitArgs true true) demoState eq_refl).
  repeat constructor.
Defined.

End SubmitExamples.

Section StackBuilderExamples.
Import StackBuilder.

(** C2, on a stack that does not hold the branch asked for: the search of
    [upstackInclusiveFromBranchWithParents] runs out of nodes, and the stack
    is returned as it was built, with its old source node and without any
    error.  The specification asks for a fatal error here. *)
Theorem C2_missing_branch_returns_silently :
  (br "feature" ∉ stackBranches strayStack)
  ∧ upstackInclusiveFromBranchWithParents (λ _, strayStack) 5 (br "feature")
    = Some (Ok strayStack).
Proof.
  split; [|reflexivity].
  intros Hin. repeat (apply elem_of_cons in Hin as [[=]|Hin]).
  by apply elem_of_nil in Hin.
Qed.

(** A branch that is in the stack becomes the source. *)
Example upstack_with_parents_found :
  upstackInclusiveFromBranchWithParents (λ _, strayStack) 5 (br "a")
  = Some (Ok {| source := StackNode (br "a") [br "main"] [] |}).
Proof. reflexivity. Qed.

(** On the graph [a -> b, c], [b -> d], [c -> e] the loop expands [e], a
    grandchild, before [b], a child: the order is not breadth first. *)
Lemma C5_expansion_is_not_breadth_first :
  expansionOrder demoChildren 10 (br "a")
    = Some [br "a"; br "c"; br "e"; br "b"; br "d"]
  ∧ breadthFirstOrder demoChildren 10 [br "a"]
    = [br "a"; br "b"; br "c"; br "d"; br "e"]
  ∧ expansionOrder demoChildren 10 (br "a")
    ≠ Some (breadthFirstOrder demoChildren 10 [br "a"]).
Proof. split; [reflexivity|]. split; [reflexivity|]. by vm_compute. Qed.

Lemma demoRank_decreases b c :
  c ∈ demoChildren b → demoRank c < demoRank b.
Proof.
  unfold demoChildren, demoRank.
  repeat (destruct (String.eqb (name b) _));
    intros Hin;
    repeat (apply elem_of_cons in Hin as [->|Hin]; [simpl; lia|]);
    by apply elem_of_nil in Hin.
Qed.

Lemma demoChildren_contract : childrenContract demoChildren demoParentName.
Proof.
  intros [nb]. unfold demoChildren. simpl. split.
  - repeat case_match; by apply (bool_decide_unpack _).
  - intros [nc]. unfold demoParentName. simpl.
    destruct (String.eqb_spec nb "a") as [->|Ha];
      [|destruct (String.eqb_spec nb "b") as [->|Hb];
        [|destruct (String.eqb_spec nb "c") as [->|Hc]]];
      (split;
       [intros Hin;
        repeat (apply elem_of_cons in Hin as [[= ->]|Hin]; [reflexivity|]);
        by apply elem_of_nil in Hin
       |destruct (String.eqb_spec nc "b") as [->|?];
          [|destruct (String.eqb_spec nc "c") as [->|?];
            [|destruct (String.eqb_spec nc "d") as [->|?];
              [|destruct (String.eqb_spec nc "e") as [->|?]]]];
        simpl; intros Hp; try congruence;
        by apply (bool_decide_unpack _)]).
Qed.

Lemma C5_expansion_builds_full_tree_witness :
  upstackInclusiveFromBranchWithoutParents demoChildren 10 (br "a") =
    Some {| source :=
              StackNode (br "a") []
                [StackNode (br "b") [br "a"] [StackNode (br "d") [br "b"] []];
                 StackNode (br "c") [br "a"] [StackNode (br "e") [br "c"] []]]
         |}
  ∧ Forall (attachesByParent demoParentName)
      (subnodes (fullTree demoChildren demoRank [] (br "a")))
  ∧ expansionOrder demoChildren 10 (br "a")
    = Some [br "a"; br "c"; br "e"; br "b"; br "d"].
Proof.
  destruct (C5_expansion_builds_full_tree demoChildren demoRank
              demoRank_decreases demoParentName (br "a") 10)
    as (Hrun & _ & _ & _ & Hpar & Hord).
  - vm_compute. lia.
  - split; [exact Hrun|]. split; [exact (Hpar demoChildren_contract)|exact Hord].
Defined.

Example demo_allStackBaseNames :
  allStackBaseNames demoStackBase demoBranches ["tmp"] (br "main")
  = [br "a"; br "c"].
Proof. reflexivity. Qed.

Example demo_allStacksFromTrunk :
  map stackBranches
    (allStacksFromTrunk demoFullStack demoStackBase demoBranches ["tmp"]
       (br "main"))
  = [[br "a"; br "b"]; [br "c"]].
Proof. reflexivity. Qed.

Lemma demo_contract_nodes base b :
  base ∈ [br "a"; br "c"] →
  b ∈ stackBranches (demoFullStack base) ↔
  b ∈ [br "a"; br "b"; br "c"] ∧ demoStackBase b = base.
Proof.
  intros Hbase.
  repeat (apply elem_of_cons in Hbase as [->|Hbase];
          [split;
           [intros Hin;
            repeat (apply elem_of_cons in Hin as [->|Hin];
                    [split; [apply (bool_decide_unpack _); by vm_compute
                            |reflexivity]|]);
            by apply elem_of_nil in Hin
           |intros [Hin Hb];
            repeat (apply elem_of_cons in Hin as [->|Hin];
                    [first [apply (bool_decide_unpack _); by vm_compute
                           |by vm_compute in Hb]|]);
            by apply elem_of_nil in Hin]|]).
  by apply elem_of_nil in Hbase.
Qed.

Lemma C6_allStacksFromTrunk_partitions_witness :
  concat (map stackBranches
            (allStacksFromTrunk demoFullStack demoStackBase demoBranches
               ["tmp"] (br "main")))
    ≡ₚ [br "a"; br "b"; br "c"]
  ∧ NoDup (allStackBaseNames demoStackBase demoBranches ["tmp"] (br "main")).
Proof.
  destruct (C6_allStacksFromTrunk_partitions demoFullStack demoStackBase
              demoBranches ["tmp"] (br "main"))
    as (Hbases & _ & _ & Hperm & _).
  - apply (bool_decide_unpack _). by vm_compute.
  - split; [intros base Hbase|intros base b Hbase].
    + change (base ∈ [br "a"; br "c"]) in Hbase.
      repeat (apply elem_of_cons in Hbase as [->|Hbase];
              [apply (bool_decide_unpack _); by vm_compute|]).
      by apply elem_of_nil in Hbase.
    + exact (demo_contract_nodes base b Hbase).
  - split; [exact Hperm|exact Hbases].
Defined.

End StackBuilderExamples.

(** * Further properties *)

(** ** Error classes *)

(** X1. The [name] an error class sets tells the classes apart: two errors
    carry the same name exactly when they are instances of the same class. *)
Theorem errorName_separates_classes (e1 e2 : TError) :
  errorName e1 = errorName e2 ↔ sameClass e1 e2 = true.
Proof. destruct e1, e2; simpl; split; intros H; done. Qed.

(** ** [getRemoteSha] *)
Section RemoteRefProperties.
Import RemoteRef.

Variable A : Type.
Variable isSpace : A → bool.
Variable lsRemote : string → string → list A.

Local Abbreviation search := (search A isSpace).
Local Abbreviation getRemoteSha := (getRemoteSha A isSpace lsRemote).
Local Abbreviation noSpace := (Forall (λ c, isSpace c = false)).

Lemma search_none s : noSpace s → search s = (-1)%Z.
Proof.
  induction 1 as [|c s Hc _ IH]; simpl; [done|]. by rewrite Hc, IH.
Qed.

Lemma search_found pre c post :
  noSpace pre → isSpace c = true →
  search (pre ++ c :: post) = Z.of_nat (length pre).
Proof.
  intros Hpre Hc. induction Hpre as [|x pre Hx _ IH]; simpl.
  - by rewrite Hc.
  - rewrite Hx, IH. destruct (Z.ltb_spec (Z.of_nat (length pre)) 0); lia.
Qed.

(** A string has no whitespace, or splits at its first whitespace. *)
Lemma first_space s :
  noSpace s
  ∨ ∃ pre c post, s = pre ++ c :: post ∧ noSpace pre ∧ isSpace c = true.
Proof.
  induction s as [|x s IH]; [by left|].
  destruct (isSpace x) eqn:Hx.
  - right. by exists [], x, s.
  - destruct IH as [Hs|(pre & c & post & -> & Hpre & Hc)].
    + left. by constructor.
    + right. exists (x :: pre), c, post. split; [done|]. split; [|done].
      by constructor.
Qed.

Lemma getRemoteSha_split ref remote pre c post :
  lsRemote remote ref = pre ++ c :: post →
  noSpace pre → isSpace c = true →
  getRemoteSha ref remote = orUndefined A pre.
Proof.
  intros Hout Hpre Hc. unfold RemoteRef.getRemoteSha, slice0.
  rewrite Hout, search_found by done. f_equal.
  destruct (Z.ltb_spec (Z.of_nat (length pre)) 0); [lia|].
  rewrite Z.min_l by (rewrite length_app; simpl; lia).
  by rewrite Nat2Z.id, take_app_length.
Qed.

Lemma getRemoteSha_bare ref remote :
  noSpace (lsRemote remote ref) →
  getRemoteSha ref remote =
    orUndefined A (take (length (lsRemote remote ref) - 1) (lsRemote remote ref)).
Proof.
  intros Hno. unfold RemoteRef.getRemoteSha, slice0.
  rewrite search_none by done. simpl. do 2 f_equal. lia.
Qed.

(** X2. When the output of [git ls-remote] holds a whitespace,
    [getRemoteSha] returns what stands before the first one, and nothing
    ([undefined]) when the output starts with it. *)
Theorem getRemoteSha_up_to_whitespace ref remote pre c post :
  lsRemote remote ref = pre ++ c :: post →
  noSpace pre → isSpace c = true →
  getRemoteSha ref remote = match pre with [] => None | _ :: _ => Some pre end.
Proof. apply getRemoteSha_split. Qed.

(** X3. When the output holds no whitespace at all, [search] answers -1 and
    [slice(0, -1)] drops the last code unit: [getRemoteSha] returns the
    output without its last character, and nothing for an output of at most
    one character. *)
Theorem getRemoteSha_without_whitespace ref remote :
  noSpace (lsRemote remote ref) →
  getRemoteSha ref remote =
    match take (length (lsRemote remote ref) - 1) (lsRemote remote ref) with
    | [] => None
    | r => Some r
    end.
Proof.
  intros Hno. rewrite getRemoteSha_bare by done. unfold orUndefined.
  by destruct (take _ _).
Qed.

(** X4. A revision [getRemoteSha] returns is never empty, holds no
    whitespace and is a proper prefix of the command's output. *)
Theorem getRemoteSha_result ref remote r :
  getRemoteSha ref remote = Some r →
  r ≠ [] ∧ noSpace r
  ∧ ∃ rest, rest ≠ [] ∧ lsRemote remote ref = r ++ rest.
Proof.
  destruct (first_space (lsRemote remote ref))
    as [Hno|(pre & c & post & Hout & Hpre & Hc)].
  - rewrite getRemoteSha_bare by done. unfold orUndefined.
    destruct (take _ _) as [|x t] eqn:Et; [done|]. intros [= <-].
    split; [done|]. split.
    + rewrite <- Et. by apply Forall_take.
    + exists (drop (length (lsRemote remote ref) - 1) (lsRemote remote ref)).
      split; [|by rewrite <- Et, take_drop].
      intros Hd. apply (f_equal length) in Hd, Et.
      rewrite length_drop in Hd. rewrite length_take in Et. simpl in *. lia.
  - rewrite (getRemoteSha_split _ _ _ _ _ Hout Hpre Hc). unfold orUndefined.
    destruct pre as [|x t]; [done|]. intros [= <-].
    split; [done|]. split; [done|]. by exists (c :: post).
Qed.

End RemoteRefProperties.

(** ** The commit actions: order of the calls and failures *)
Section CommitFailures.
Import Commit.
Context {W : Type} `{TContext W}.

(** Unfold an action down to the collaborators' calls. *)
Ltac unfold_run :=
  unfold eventsOf, outcomeOf, run, commitAmendAction, commitCreateAction,
    metaCache_addAll, metaCache_commit, splog_tip, restackBranches,
    metaCache_currentBranchPrecondition, metaCache_getRelativeStack,
    ensureSomeStagedChangesPrecondition, afterStageAll, stagesAll,
    enforcesStagedChanges, isEditingAmend, commitOptions, emit, when, bind,
    modify, get, ret, throw in *.

(** X5. Whatever happens, the calls of a commit action are an initial part
    of one fixed sequence: the optional stage-all, the commit, the optional
    hint, the restack.  No call is made twice or out of order; a failure only
    cuts the sequence short. *)
Theorem calls_in_order (i : TInvocation) (w : W) :
  ∃ above, eventsOf i w `prefix_of` callsToHint i ++ [EvRestack above].
Proof.
  unfold callsToHint, callsToCommit.
  destruct i as [[a m n p]|[a p m]]; unfold_run; simpl;
    destruct a; simpl; try destruct n; simpl;
    repeat match goal with
      | |- context [commit ?o ?w] => destruct (commit o w) as [[[]|?] ?]
      | |- context [currentBranchPrecondition ?w] =>
          destruct (currentBranchPrecondition w)
      | |- context [restack ?b ?w] => destruct (restack b w) as [[[]|?] ?]
      | |- context [detectStagedChanges ?w] => destruct (detectStagedChanges w)
      end; simpl;
    first [ by eexists; eexists []
          | by exists []; eexists
          | by eexists; eexists; simpl ].
Qed.

(** X6. When the commit fails, the action ends with the commit's error,
    in the repository as the commit left it: no hint is given and the
    restack engine is not called. *)
Theorem failed_commit_stops (i : TInvocation) (w w' : W) (e : TError) :
  (enforcesStagedChanges i = true →
   detectStagedChanges (afterStageAll i w) = true) →
  commit (commitOptions i) (afterStageAll i w) = (Throw e, w') →
  run i (w, []) = (Throw e, (w', callsToCommit i)).
Proof.
  unfold callsToCommit.
  destruct i as [[a m n p]|[a p m]]; unfold_run; simpl;
    intros Hs Hc; destruct a; simpl in *; try destruct n; simpl in *;
    try rewrite Hs by done; simpl; by rewrite Hc.
Qed.

(** X7. The current branch is looked up only after the commit: when no
    branch is checked out, the commit (and the hint) have already been made,
    the action ends with the lookup's error, and nothing is restacked. *)
Theorem commit_precedes_branch_check (i : TInvocation) (w w2 : W)
  (e : TError) :
  (enforcesStagedChanges i = true →
   detectStagedChanges (afterStageAll i w) = true) →
  commit (commitOptions i) (afterStageAll i w) = (Ok tt, w2) →
  currentBranchPrecondition w2 = Throw e →
  run i (w, []) = (Throw e, (w2, callsToHint i)).
Proof.
  unfold callsToHint, callsToCommit.
  destruct i as [[a m n p]|[a p m]]; unfold_run; simpl;
    intros Hs Hc Hb; destruct a; simpl in *; try destruct n; simpl in *;
    try rewrite Hs by done; simpl; rewrite Hc; simpl; by rewrite Hb.
Qed.

(** X8. When the steps before it go through, the outcome of the action is
    the outcome of the restack engine, and the repository is the one it
    leaves: a rebase conflict surfaces as the action's error. *)
Theorem outcome_is_restack_outcome (i : TInvocation) (w w2 : W)
  (cur : string) :
  (enforcesStagedChanges i = true →
   detectStagedChanges (afterStageAll i w) = true) →
  commit (commitOptions i) (afterStageAll i w) = (Ok tt, w2) →
  currentBranchPrecondition w2 = Ok cur →
  let above := getRelativeStack cur UPSTACK_EXCLUSIVE w2 in
  run i (w, []) =
    ((restack above w2).1,
     ((restack above w2).2, callsToHint i ++ [EvRestack above])).
Proof.
  unfold callsToHint, callsToCommit.
  destruct i as [[a m n p]|[a p m]]; unfold_run; simpl;
    intros Hs Hc Hb; destruct a; simpl in *; try destruct n; simpl in *;
    try rewrite Hs by done; simpl; rewrite Hc; simpl; rewrite Hb; simpl;
    by destruct (restack _ _) as [[[]|?] ?].
Qed.

End CommitFailures.

Section CommitFailureExamples.
Import Commit.

Lemma failed_commit_stops_witness :
  run createAll (cleanRepo 2 true, []) =
    (Throw (ExitFailedError "git commit failed"),
     (repoAddAll (cleanRepo 2 true),
      [EvAddAll; EvCommit (commitOptions createAll)])).
Proof.
  exact (failed_commit_stops createAll (cleanRepo 2 true)
           (repoAddAll (cleanRepo 2 true))
           (ExitFailedError "git commit failed") (λ _, eq_refl) eq_refl).
Defined.

Lemma commit_precedes_branch_check_witness :
  (run amendWithEdit (detachedRepo, [])).1 =
    Throw (PreconditionsFailedError
             "Cannot perform this operation without a branch checked out.")
  ∧ commitsMade (run amendWithEdit (detachedRepo, [])).2.1 = 1
  ∧ (run amendWithEdit (detachedRepo, [])).2.2 =
      [EvCommit (commitOptions amendWithEdit); EvTip noEditTip].
Proof.
  pose proof (commit_precedes_branch_check amendWithEdit detachedRepo
                (commit (commitOptions amendWithEdit) detachedRepo).2
                _ (λ _, eq_refl) eq_refl eq_refl) as Hrun.
  rewrite Hrun. repeat split.
Defined.

Lemma outcome_is_restack_outcome_witness :
  run createAll (cleanRepo 2 false, []) =
    (Ok tt,
     ((commit (commitOptions createAll) (repoAddAll (cleanRepo 2 false))).2,
      [EvAddAll; EvCommit (commitOptions createAll); EvRestack ["c"; "d"]])).
Proof.
  exact (outcome_is_restack_outcome createAll (cleanRepo 2 false)
           (commit (commitOptions createAll)
              (repoAddAll (cleanRepo 2 false))).2
           "b" (λ _, eq_refl) eq_refl eq_refl).
Defined.

End CommitFailureExamples.

(** ** The PR reconciliation engine: frames, failures and the plan *)
Section SubmitPlanProperties.
Import Submit.

Variable getParentPrecondition : string → Result string.
Variable getRevision : string → string.
Variable branchMatchesRemote : string → bool.
Variable interactive : bool.
Variable promptAnswer : string → option bool.
Variable getPRTitle : string → bool → gmap string TBranchPRInfo → Result string.
Variable getPRBody : string → bool → gmap string TBranchPRInfo → Result string.
Variable getReviewers : bool → Result (list string).
Variable getPRDraftStatus : Result bool.

Local Abbreviation getPRAction :=
  (getPRAction getParentPrecondition branchMatchesRemote promptAnswer).
Local Abbreviation plannedAction :=
  (plannedAction getParentPrecondition branchMatchesRemote promptAnswer).
Local Abbreviation getPRCreationInfo :=
  (getPRCreationInfo getParentPrecondition interactive getPRTitle getPRBody
     getReviewers getPRDraftStatus).
Local Abbreviation entryFor :=
  (entryFor getParentPrecondition getRevision interactive getPRTitle getPRBody
     getReviewers getPRDraftStatus).
Local Abbreviation getPRInfoForBranches :=
  (getPRInfoForBranches getParentPrecondition getRevision branchMatchesRemote
     interactive promptAnswer getPRTitle getPRBody getReviewers
     getPRDraftStatus).

(** X9. [getPRAction] only reads: whatever the flags, the stored review
    infos and the user's answer, it leaves the Metadata Store as it was, and
    what it logs is at most one question to the user and the status line. *)
Theorem getPRAction_only_reads args s :
  ∃ extra,
    (getPRAction args s).2 = {| prInfos := prInfos s; log := log s ++ extra |}
    ∧ Forall quiet extra
    ∧ length extra ≤ 2.
Proof.
  destruct (getParentPrecondition (branchName args)) as [parent|e] eqn:Hp.
  - rewrite (getPRAction_run _ _ _ _ _ parent Hp). simpl. eexists.
    split; [reflexivity|].
    destruct (asksUser _ _); simpl; split; try lia; by repeat constructor.
  - rewrite (getPRAction_no_parent _ _ _ _ _ e Hp). exists []. simpl.
    rewrite app_nil_r. destruct s. split; [done|]. split; [constructor|lia].
Qed.

(** The first loop stops at the first branch without a parent. *)
Lemma collect_loop_stops args pre b post acc s e :
  Forall (λ x, isOk (getParentPrecondition x) = true) pre →
  getParentPrecondition b = Throw e →
  ∃ extra,
    forAwait (pre ++ b :: post) acc
      (λ prActions b,
         bind (getPRAction (actionArgs args b))
           (λ action, ret (match action with
                           | Some a => prActions ++ [a]
                           | None => prActions
                           end))) s
    = (Throw e, {| prInfos := prInfos s; log := log s ++ extra |})
    ∧ Forall quiet extra.
Proof.
  intros Hpre Hb. revert acc s.
  induction Hpre as [|x pre Hx _ IH]; intros acc s; cbn [app forAwait].
  - erewrite bind_throw;
      [|erewrite bind_throw; [|by apply getPRAction_no_parent]; reflexivity].
    exists []. rewrite app_nil_r. destruct s. by split; [|constructor].
  - destruct (getParentPrecondition x) as [parent|] eqn:Hp; [|done].
    pose proof (getPRAction_run getParentPrecondition branchMatchesRemote
                  promptAnswer (actionArgs args x) s parent Hp) as Hrun.
    cbv zeta in Hrun.
    erewrite bind_ok; [|erewrite bind_ok; [|exact Hrun]; reflexivity].
    match goal with |- context [forAwait _ ?a ?f ?st] =>
      destruct (IH a st) as (extra & Heq & Hq) end.
    rewrite Heq. cbn [prInfos log]. eexists.
    split; [by rewrite <- (app_assoc (log s))|].
    apply Forall_app. split; [|done].
    destruct (asksUser _ _); repeat constructor.
Qed.

(** X10. Every branch is checked for a parent before anything is gathered:
    when some branch of the list has none, [getPRInfoForBranches] ends with
    the error of the first such branch, with the Metadata Store untouched
    and no title, body, reviewers or draft status asked for, for any
    branch. *)
Theorem missing_parent_stops_before_gathering sargs s pre b post e :
  branchNames sargs = pre ++ b :: post →
  Forall (λ x, isOk (getParentPrecondition x) = true) pre →
  getParentPrecondition b = Throw e →
  ∃ extra,
    getPRInfoForBranches sargs s =
      (Throw e, {| prInfos := prInfos s; log := log s ++ extra |})
    ∧ Forall quiet extra.
Proof.
  intros Hnames Hpre Hb.
  unfold Submit.getPRInfoForBranches, collectActions. rewrite Hnames.
  destruct (collect_loop_stops sargs pre b post [] s e Hpre Hb)
    as (extra & Hrun & Hq).
  exists extra. split; [|done]. by erewrite bind_throw.
Qed.

(** An action is planned for its own branch; an update carries the stored
    review number, and a creation is planned only for a branch without one
    and never under update-only. *)
Lemma plannedAction_kind args store a :
  plannedAction args store = Some a →
  action_branchName a = branchName args
  ∧ match a with
    | Update _ n => store !! branchName args ≫= number = Some n
    | NoUpdate _ =>
        store !! branchName args ≫= number = None ∧ updateOnly args = false
    end.
Proof.
  unfold Submit.plannedAction, Submit.calculatedStatus.
  destruct (getParentPrecondition _) as [parent|]; [|done]. cbv zeta.
  destruct (store !! branchName args ≫= number) as [n|] eqn:En.
  - destruct (_ || _); [done|]. by intros [= <-].
  - destruct (updateOnly args); simpl.
    + destruct (declined _ _ _); simpl; by rewrite orb_true_r.
    + destruct (_ || _); [done|]. by intros [= <-].
Qed.

Lemma entryFor_ok args a s e s' :
  entryFor args a s = (Ok e, s') →
  entryMatches getParentPrecondition getRevision args a e.
Proof.
  unfold Submit.entryFor, metaCache_getParentPrecondition, liftResult,
    entryMatches, isUpdateEntry, updateDraftField.
  unfold bind at 1. destruct (getParentPrecondition _) as [parent|] eqn:Hp;
    [|done].
  destruct a as [b|b n]; simpl in *.
  - unfold bind at 1. unfold bind at 1.
    destruct (getPRCreationInfo _ s) as [[info|] s1]; [|done].
    unfold ret. by intros [= <- <-].
  - unfold bind, ret. by intros [= <- <-].
Qed.

(** An update entry is built without touching anything. *)
Lemma entryFor_update args b n s :
  (entryFor args (Update b n) s).2 = s.
Proof.
  unfold Submit.entryFor, metaCache_getParentPrecondition, liftResult.
  unfold bind at 1. destruct (getParentPrecondition _); [|done].
  by unfold bind, ret.
Qed.

Lemma entries_loop_rel args actions acc s plan s' :
  forAwait actions acc
    (λ submissionInfo action,
       bind (entryFor args action)
         (λ entry, ret (submissionInfo ++ [entry]))) s = (Ok plan, s') →
  ∃ new, plan = acc ++ new
         ∧ Forall2 (entryMatches getParentPrecondition getRevision args)
             actions new.
Proof.
  revert acc s. induction actions as [|a actions IH]; intros acc s.
  - simpl. intros [= <- <-]. exists []. by rewrite app_nil_r.
  - cbn [forAwait]. unfold bind at 1. unfold bind at 1.
    destruct (entryFor args a s) as [[entry|] s1] eqn:He; [|done].
    apply entryFor_ok in He. unfold ret at 1. intros Hrest.
    apply IH in Hrest as (new & -> & Hnew). exists (entry :: new).
    split; [by rewrite <- app_assoc|]. by constructor.
Qed.

Lemma entries_loop_updates args actions acc s :
  Forall (λ a, ∃ b n, a = Update b n) actions →
  (forAwait actions acc
     (λ submissionInfo action,
        bind (entryFor args action)
          (λ entry, ret (submissionInfo ++ [entry]))) s).2 = s.
Proof.
  intros Hall. revert acc s.
  induction Hall as [|a actions (b & n & ->) _ IH]; intros acc s; [done|].
  cbn [forAwait]. unfold bind at 1. unfold bind at 1.
  pose proof (entryFor_update args b n s) as Hs.
  destruct (entryFor args (Update b n) s) as [[entry|] s1]; simpl in Hs;
    subst s1; [|done].
  unfold ret at 1. apply IH.
Qed.

(** What [getPRInfoForBranches] returns when it returns: one matching entry
    per planned action, in order. *)
Lemma plan_matches_actions sargs s plan :
  (getPRInfoForBranches sargs s).1 = Ok plan →
  Forall2 (entryMatches getParentPrecondition getRevision sargs)
    (omap (λ b, plannedAction (actionArgs sargs b) (prInfos s))
       (branchNames sargs))
    plan.
Proof.
  unfold Submit.getPRInfoForBranches, collectActions. unfold bind at 1.
  destruct (collect_loop getParentPrecondition branchMatchesRemote
              promptAnswer sargs (branchNames sargs) [] s)
    as (e1 & r1 & -> & Hq & Hr).
  destruct Hr as [(e & -> & _)|[-> _]]; [done|].
  rewrite app_nil_l. unfold bind at 1.
  match goal with |- context [forAwait ?l ?a ?f ?st] =>
    destruct (forAwait l a f st) as [[plan'|] s2] eqn:Hloop end; [|done].
  apply entries_loop_rel in Hloop as (new & -> & Hnew).
  unfold emit, modify, bind, ret. simpl. by intros [= <-].
Qed.

(** X11. Every entry of a returned plan is well formed: its base is the
    parent of its head, and the two revisions are those of the head and of
    the base.  The heads are branches of the request, in the order given,
    each at most as often as it was named. *)
Theorem plan_entries_well_formed sargs s plan :
  (getPRInfoForBranches sargs s).1 = Ok plan →
  Forall (λ e, getParentPrecondition (head e) = Ok (entryBase e)
               ∧ headSha e = getRevision (head e)
               ∧ baseSha e = getRevision (entryBase e)) plan
  ∧ map head plan `sublist_of` branchNames sargs.
Proof.
  intros Hplan%plan_matches_actions. split.
  - eapply Forall2_Forall_r; [exact Hplan|].
    apply Forall_forall. intros a _ e (_ & ? & ? & ? & _). done.
  - revert plan Hplan. induction (branchNames sargs) as [|b names IH];
      intros plan Hplan; simpl in Hplan.
    + apply Forall2_nil_inv_l in Hplan as ->. constructor.
    + destruct (plannedAction _ _) as [a|] eqn:Ha.
      * apply Forall2_cons_inv_l in Hplan as (e & plan' & He & Hrest & ->).
        destruct He as (Hh & _). apply plannedAction_branchName in Ha.
        simpl in *. rewrite Hh, Ha. constructor. by apply IH.
      * apply sublist_cons. by apply IH.
Qed.

(** X12. The kind of an entry follows the review number stored when the run
    starts: an update entry carries that number and, as its draft field,
    [true] when [draft] is set, else [false] when [publish] is set, else
    nothing; a create entry stands for a branch without a stored number, and
    only when update-only is off. *)
Theorem plan_entry_kinds sargs s plan :
  (getPRInfoForBranches sargs s).1 = Ok plan →
  Forall (λ e, match fields e with
               | UpdateFields n d =>
                   prInfos s !! head e ≫= number = Some n
                   ∧ d = updateDraftField sargs
               | CreateFields _ _ _ _ =>
                   prInfos s !! head e ≫= number = None
                   ∧ s_updateOnly sargs = false
               end) plan.
Proof.
  intros Hplan%plan_matches_actions.
  revert plan Hplan. induction (branchNames sargs) as [|b names IH];
    intros plan Hplan; simpl in Hplan.
  - apply Forall2_nil_inv_l in Hplan as ->. constructor.
  - destruct (plannedAction _ _) as [a|] eqn:Ha; [|by apply IH].
    apply Forall2_cons_inv_l in Hplan as (e & plan' & He & Hrest & ->).
    constructor; [|by apply IH].
    apply plannedAction_kind in Ha as [Hb Hk]. simpl in Hb, Hk.
    destruct He as (Hh & _ & _ & _ & Hf). rewrite Hh, Hb.
    unfold isUpdateEntry in Hf. destruct a as [b'|b' n]; simpl in *.
    + by destruct (fields e).
    + by rewrite Hf.
Qed.

(** X13. Under update-only no PR is created: the plan holds update entries
    only, no title, body, reviewers or draft status is asked for, and the
    Metadata Store is left as it was, whether the run returns or fails. *)
Theorem update_only_never_creates sargs s :
  s_updateOnly sargs = true →
  (∃ extra,
     (getPRInfoForBranches sargs s).2 =
       {| prInfos := prInfos s; log := log s ++ extra |}
     ∧ Forall quiet extra)
  ∧ ∀ plan, (getPRInfoForBranches sargs s).1 = Ok plan →
            Forall (λ e, isUpdateEntry e = true) plan.
Proof.
  intros Hupd.
  assert (Forall (λ a, ∃ b n, a = Update b n)
            (omap (λ b, plannedAction (actionArgs sargs b) (prInfos s))
               (branchNames sargs))) as Hupdates.
  { apply Forall_forall. intros a (b & _ & Ha)%list_elem_of_omap.
    apply plannedAction_kind in Ha as [_ Hk]. destruct a as [b'|b' n].
    - simpl in Hk. destruct Hk as [_ Hk]. congruence.
    - eauto. }
  split.
  - unfold Submit.getPRInfoForBranches, collectActions. unfold bind at 1.
    destruct (collect_loop getParentPrecondition branchMatchesRemote
                promptAnswer sargs (branchNames sargs) [] s)
      as (e1 & r1 & -> & Hq & Hr).
    destruct Hr as [(e & -> & _)|[-> _]]; [by exists e1|].
    rewrite app_nil_l. unfold bind at 1.
    match goal with |- context [forAwait ?l ?a ?f ?st] =>
      pose proof (entries_loop_updates sargs l a st Hupdates) as Hs;
      destruct (forAwait l a f st) as [[plan'|] s2] end;
      simpl in Hs; subst s2.
    + exists (e1 ++ [EvNewline]). unfold emit, modify, bind, ret. simpl.
      rewrite <- app_assoc. split; [done|].
      apply Forall_app. split; [done|]. by repeat constructor.
    + by exists e1.
  - intros plan Hplan%plan_matches_actions.
    eapply Forall2_Forall_r; [exact Hplan|].
    eapply Forall_impl; [exact Hupdates|].
    intros a (b & n & ->) e (_ & _ & _ & _ & Hf). unfold isUpdateEntry.
    by rewrite Hf.
Qed.

(** Unfold [getPRCreationInfo] down to the collaborators' calls. *)
Ltac unfold_creation :=
  unfold Submit.getPRCreationInfo, headerPasses, createAsDraft,
    asksDraftStatus, metaCache_getParentPrecondition, metaCache_upsertPrInfo,
    call_getPRTitle, call_getPRBody, call_getReviewers, call_getPRDraftStatus,
    liftResult, withLocal, tryFinally, liftL, getL, modifyL, emit, when, bind,
    modify, ret in *.

(** What a run of [getPRCreationInfo] that returns has done. *)
Lemma getPRCreationInfo_ok args s info :
  (getPRCreationInfo args s).1 = Ok info →
  let b := c_branchName args in
  let s' := (getPRCreationInfo args s).2 in
  ∃ t bd rv,
    getPRTitle b (c_editPRFieldsInline args) (prInfos s) = Ok t
    ∧ getPRBody b (c_editPRFieldsInline args) (prInfos s) = Ok bd
    ∧ getReviewers (c_reviewers args) = Ok rv
    ∧ info = {| ci_title := Some t; ci_body := Some bd; ci_reviewers := rv;
                ci_draft := createAsDraft interactive getPRDraftStatus args |}
    ∧ prInfos s' !! b ≫= title = Some t
    ∧ prInfos s' !! b ≫= body = Some bd
    ∧ filter (λ e, isGather e = true) (log s') =
        filter (λ e, isGather e = true) (log s)
        ++ [EvGetPRTitle b; EvGetPRBody b; EvGetReviewers]
        ++ (if asksDraftStatus interactive args
            then [EvGetPRDraftStatus] else [])
    ∧ filter (λ e, isDraftQuestion e = true) (log s') =
        filter (λ e, isDraftQuestion e = true) (log s)
        ++ (if asksDraftStatus interactive args
            then [EvGetPRDraftStatus] else []).
Proof.
  unfold_creation. destruct s as [store lg]; simpl.
  destruct (c_editPRFieldsInline args); simpl;
    [destruct (getParentPrecondition _); simpl; [|done] |];
    (destruct (getPRTitle _ _ store) as [t|]; simpl;
     [destruct (getPRBody _ _ store) as [bd|]; simpl;
      [destruct (getReviewers _) as [rv|]; simpl;
       [destruct (c_publish args), (c_draft args), interactive; simpl;
        try destruct getPRDraftStatus; simpl | ] | ] | ]);
    intros [= <-]; exists t, bd, rv; simpl;
    rewrite !lookup_insert_eq, !filter_app; simpl; rewrite ?app_nil_r;
    by rewrite <- ?app_assoc.
Qed.

(** X14. When [getPRCreationInfo] returns, the title and body it returns
    are both present and are the ones it has handed to [upsertPrInfo] for the
    branch, in its one call of it. *)
Theorem returned_title_body_are_stored args s info :
  (getPRCreationInfo args s).1 = Ok info →
  ∃ saved,
    filter (λ e, isUpsert e = true) (log (getPRCreationInfo args s).2) =
      filter (λ e, isUpsert e = true) (log s)
      ++ [EvUpsertPrInfo (c_branchName args) saved]
    ∧ is_Some (ci_title info) ∧ is_Some (ci_body info)
    ∧ title saved = ci_title info
    ∧ body saved = ci_body info.
Proof.
  unfold_creation. destruct s as [store lg]; simpl.
  destruct (c_editPRFieldsInline args); simpl;
    [destruct (getParentPrecondition _); simpl; [|done] |];
    (destruct (getPRTitle _ _ store) as [t|]; simpl;
     [destruct (getPRBody _ _ store) as [bd|]; simpl;
      [destruct (getReviewers _) as [rv|]; simpl;
       [destruct (c_publish args), (c_draft args), interactive; simpl;
        try destruct getPRDraftStatus; simpl | ] | ] | ]);
    intros [= <-]; eexists; simpl;
    rewrite !filter_app; simpl; rewrite ?app_nil_r;
    (split; [reflexivity|]); simpl; by eauto.
Qed.

(** X15. The draft status of a new PR: [publish] wins over [draft], which
    wins over asking.  A PR is created published when [publish] is set, as a
    draft when only [draft] is set or the session is not interactive, and
    the user is asked, once, only when neither flag is set in an interactive
    session. *)
Theorem draft_status_of_new_pr args s info :
  (getPRCreationInfo args s).1 = Ok info →
  ci_draft info = createAsDraft interactive getPRDraftStatus args
  ∧ filter (λ e, isDraftQuestion e = true) (log (getPRCreationInfo args s).2) =
      filter (λ e, isDraftQuestion e = true) (log s)
      ++ (if asksDraftStatus interactive args then [EvGetPRDraftStatus] else []).
Proof.
  intros Hok. destruct (getPRCreationInfo_ok args s info Hok)
    as (t & bd & rv & _ & _ & _ & -> & _ & _ & _ & Hlog).
  by split.
Qed.

(** X16. When the title cannot be obtained, nothing else is asked for:
    [getPRCreationInfo] ends with the title's error without asking for the
    body, the reviewers or the draft status. *)
Theorem failed_title_stops_gathering args s e :
  headerPasses getParentPrecondition args = true →
  getPRTitle (c_branchName args) (c_editPRFieldsInline args) (prInfos s)
    = Throw e →
  (getPRCreationInfo args s).1 = Throw e
  ∧ filter (λ e, isGather e = true) (log (getPRCreationInfo args s).2) =
      filter (λ e, isGather e = true) (log s)
      ++ [EvGetPRTitle (c_branchName args)].
Proof.
  unfold_creation. destruct s as [store lg]; simpl.
  destruct (c_editPRFieldsInline args); simpl;
    [destruct (getParentPrecondition _); simpl; [|done] |];
    intros _ ->; simpl; (split; [done|]);
    rewrite !filter_app; simpl; by rewrite ?app_nil_r.
Qed.

End SubmitPlanProperties.

Section FurtherExamples.
Import RemoteRef Submit.

Lemma getRemoteSha_up_to_whitespace_witness :
  getRemoteSha Ascii.ascii asciiSpace demoLsRemote "refs/heads/x" "origin"
  = Some ["4"; "f"; "2"; "a"]%char.
Proof.
  apply (getRemoteSha_up_to_whitespace Ascii.ascii asciiSpace demoLsRemote
           "refs/heads/x" "origin" ["4"; "f"; "2"; "a"]%char tab
           ["r"; "e"; "f"; "s"; newline]%char eq_refl);
    [repeat constructor|reflexivity].
Defined.

Lemma getRemoteSha_without_whitespace_witness :
  getRemoteSha Ascii.ascii asciiSpace bareLsRemote "refs/heads/x" "origin"
  = Some ["4"; "f"; "2"]%char.
Proof.
  apply (getRemoteSha_without_whitespace Ascii.ascii asciiSpace bareLsRemote
           "refs/heads/x" "origin").
  repeat constructor.
Defined.

Lemma getRemoteSha_result_witness :
  ["4"; "f"; "2"; "a"]%char ≠ []
  ∧ Forall (λ c, asciiSpace c = false) ["4"; "f"; "2"; "a"]%char
  ∧ ∃ rest, rest ≠ []
            ∧ demoLsRemote "origin" "refs/heads/x"
              = ["4"; "f"; "2"; "a"]%char ++ rest.
Proof.
  exact (getRemoteSha_result Ascii.ascii asciiSpace demoLsRemote
           "refs/heads/x" "origin" ["4"; "f"; "2"; "a"]%char eq_refl).
Defined.

Lemma missing_parent_stops_before_gathering_witness :
  ∃ extra,
    demoEngine demoSubmitWithTrunk demoState =
      (Throw (PreconditionsFailedError "branch has no parent"),
       {| prInfos := demoStore; log := extra |})
    ∧ Forall quiet extra.
Proof.
  apply (missing_parent_stops_before_gathering demoParent demoRevision
           (λ _, true) true (λ _, Some false) demoTitle demoBodyOk
           (λ _, Ok ["alice"]) (Ok false) demoSubmitWithTrunk demoState
           ["feature-a"] "main" ["feature-b"]
           (PreconditionsFailedError "branch has no parent") eq_refl);
    [repeat constructor|reflexivity].
Defined.

Lemma plan_entries_well_formed_witness :
  map head demoPlan = ["feature-a"; "feature-b"]
  ∧ Forall (λ e, demoParent (head e) = Ok (entryBase e)
                 ∧ headSha e = demoRevision (head e)
                 ∧ baseSha e = demoRevision (entryBase e)) demoPlan
  ∧ map head demoPlan `sublist_of` ["feature-a"; "feature-b"].
Proof.
  split; [reflexivity|].
  exact (plan_entries_well_formed demoParent demoRevision (λ _, true) true
           (λ _, Some false) demoTitle demoBodyOk (λ _, Ok ["alice"])
           (Ok false) (demoSubmitFlags true true false) demoState demoPlan
           eq_refl).
Defined.

Lemma plan_entry_kinds_witness :
  map fields demoPlan =
    [CreateFields (Some "Add feature") (Some "Adds the feature.") ["alice"]
       false;
     UpdateFields 12 (Some true)]
  ∧ Forall (λ e, match fields e with
                 | UpdateFields n d =>
                     demoStore !! head e ≫= number = Some n
                     ∧ d = Some true
                 | CreateFields _ _ _ _ =>
                     demoStore !! head e ≫= number = None ∧ false = false
                 end) demoPlan.
Proof.
  split; [reflexivity|].
  exact (plan_entry_kinds demoParent demoRevision (λ _, true) true
           (λ _, Some false) demoTitle demoBodyOk (λ _, Ok ["alice"])
           (Ok false) (demoSubmitFlags true true false) demoState demoPlan
           eq_refl).
Defined.

Lemma update_only_never_creates_witness :
  map head
    (match (demoEngine (demoSubmitFlags false false true) demoState).1 with
     | Ok plan => plan
     | Throw _ => []
     end) = ["feature-b"]
  ∧ prInfos (demoEngine (demoSubmitFlags false false true) demoState).2
    = demoStore.
Proof.
  split; [reflexivity|].
  destruct (update_only_never_creates demoParent demoRevision (λ _, true)
              true (λ _, Some false) demoTitle demoBodyOk (λ _, Ok ["alice"])
              (Ok false) (demoSubmitFlags false false true) demoState
              eq_refl) as [(extra & Hs & _) _].
  unfold demoEngine. by rewrite Hs.
Defined.

Lemma returned_title_body_are_stored_witness :
  ∃ saved,
    filter (λ e, isUpsert e = true)
      (log (demoCreation demoTitle (demoCreationFlags true true) demoState).2) =
      filter (λ e, isUpsert e = true) (log demoState)
      ++ [EvUpsertPrInfo (c_branchName (demoCreationFlags true true)) saved]
    ∧ is_Some (ci_title (demoCreationInfo (demoCreationFlags true true)))
    ∧ is_Some (ci_body (demoCreationInfo (demoCreationFlags true true)))
    ∧ title saved = ci_title (demoCreationInfo (demoCreationFlags true true))
    ∧ body saved = ci_body (demoCreationInfo (demoCreationFlags true true)).
Proof.
  exact (returned_title_body_are_stored demoParent true demoTitle demoBodyOk
           (λ _, Ok ["alice"]) (Ok false) (demoCreationFlags true true)
           demoState (demoCreationInfo (demoCreationFlags true true))
           eq_refl).
Defined.

Lemma draft_status_of_new_pr_witness :
  ci_draft (demoCreationInfo (demoCreationFlags true true)) = false
  ∧ filter (λ e, isDraftQuestion e = true)
      (log (demoCreation demoTitle (demoCreationFlags true true)
              demoState).2) = [].
Proof.
  exact (draft_status_of_new_pr demoParent true demoTitle demoBodyOk
           (λ _, Ok ["alice"]) (Ok false) (demoCreationFlags true true)
           demoState (demoCreationInfo (demoCreationFlags true true))
           eq_refl).
Defined.

(** With neither flag set in an interactive session the user is asked. *)
Example draft_status_asked :
  (demoCreation demoTitle (demoCreationFlags false false) demoState).1
    = Ok (demoCreationInfo (demoCreationFlags false false))
  ∧ filter (λ e, isDraftQuestion e = true)
      (log (demoCreation demoTitle (demoCreationFlags false false)
              demoState).2) = [EvGetPRDraftStatus].
Proof. split; reflexivity. Qed.

Lemma failed_title_stops_gathering_witness :
  (demoCreation demoTitleKilled (demoCreationFlags false false) demoState).1
    = Throw KilledError
  ∧ filter (λ e, isGather e = true)
      (log (demoCreation demoTitleKilled (demoCreationFlags false false)
              demoState).2) = [EvGetPRTitle "feature-a"].
Proof.
  exact (failed_title_stops_gathering demoParent true demoTitleKilled
           demoBodyOk (λ _, Ok ["alice"]) (Ok false)
           (demoCreationFlags false false) demoState KilledError eq_refl
           eq_refl).
Defined.

End FurtherExamples.

(** ** The stack builder: the search *)
Section SearchResults.
Import StackBuilder.

Variable fullStackFromBranch : Branch → Stack.

Lemma subnodes_self n : n ∈ subnodes n.
Proof. destruct n. left. Qed.

Lemma subnodes_child n c x :
  c ∈ children n → x ∈ subnodes c → x ∈ subnodes n.
Proof.
  destruct n as [b ps cs]. simpl. intros Hc Hx. right.
  apply list_elem_of_In, in_concat. exists (subnodes c).
  split; [apply in_map|]; by apply list_elem_of_In.
Qed.

(** The search ends, with a node of the wanted name taken from the nodes it
    was given, or with nothing when no node has that name. *)
Lemma findSourceNode_result fuel b nodes :
  list_sum (map nodeSize nodes) < fuel →
  (∃ node, findSourceNode fuel b nodes = Some (Ok (Some node))
           ∧ name (branch node) = name b
           ∧ Exists (λ n, node ∈ subnodes n) nodes)
  ∨ (findSourceNode fuel b nodes = Some (Ok None)
     ∧ Forall (λ n, ∀ x, x ∈ nodeBranches n → name x ≠ name b) nodes).
Proof.
  revert nodes. induction fuel as [|fuel IH]; intros nodes Hf; [lia|].
  simpl. destruct nodes as [|n0 nodes0]; [by right|].
  destruct (snoc_inv (n0 :: nodes0)) as (rest & node & E); [done|].
  rewrite E in *. clear E n0 nodes0. rewrite pop_snoc.
  case_decide as Hname.
  - left. exists node. split; [done|]. split; [done|].
    apply Exists_app. right. left. apply subnodes_self.
  - destruct (IH (rest ++ children node)) as [(x & Hrun & Hx & Hin)|[Hrun Hall]].
    + destruct node as [nb ps cs].
      rewrite map_app, list_sum_app in *. simpl in *. lia.
    + left. exists x. split; [done|]. split; [done|].
      apply Exists_app in Hin as [Hin|Hin]; apply Exists_app; [by left|].
      right. left. apply Exists_exists in Hin as (c & Hc & Hxc).
      by apply (subnodes_child node c).
    + right. split; [done|].
      apply Forall_app in Hall as [Hrest Hkids]. apply Forall_app.
      split; [done|]. apply Forall_singleton.
      destruct node as [nb ps cs]. simpl in *.
      intros x [->|Hx]%elem_of_cons; [done|].
      apply list_elem_of_In, in_concat in Hx as (l & Hl & Hx).
      apply in_map_iff in Hl as (c & <- & Hc).
      rewrite Forall_forall in Hkids.
      by apply (Hkids c); apply list_elem_of_In.
Qed.

(** X17. [upstackInclusiveFromBranchWithParents] always returns a stack and
    never signals an error: the search over the full stack ends, and the
    source of the stack returned is one of the nodes of the full stack. *)
Theorem upstack_with_parents_returns fuel b :
  nodeSize (source (fullStackFromBranch b)) < fuel →
  ∃ st, upstackInclusiveFromBranchWithParents fullStackFromBranch fuel b
        = Some (Ok st)
        ∧ source st ∈ subnodes (source (fullStackFromBranch b)).
Proof.
  intros Hf. unfold upstackInclusiveFromBranchWithParents.
  destruct (findSourceNode_result fuel b [source (fullStackFromBranch b)])
    as [(x & -> & _ & Hin)|[-> _]]; [simpl; lia| |].
  - exists {| source := x |}. split; [done|].
    apply Exists_cons in Hin as [Hin|Hin]; [done|].
    by apply Exists_nil in Hin.
  - exists (fullStackFromBranch b). split; [done|]. apply subnodes_self.
Qed.

(** X18. When the full stack holds a node for the branch asked for,
    [upstackInclusiveFromBranchWithParents] returns the stack with such a
    node as its source: the source carries the branch's name and is a node
    of the full stack, with its parent links and its children as built. *)
Theorem upstack_with_parents_finds fuel b x :
  nodeSize (source (fullStackFromBranch b)) < fuel →
  x ∈ stackBranches (fullStackFromBranch b) →
  name x = name b →
  ∃ node, upstackInclusiveFromBranchWithParents fullStackFromBranch fuel b
          = Some (Ok {| source := node |})
          ∧ name (branch node) = name b
          ∧ node ∈ subnodes (source (fullStackFromBranch b)).
Proof.
  intros Hf Hx Hname. unfold upstackInclusiveFromBranchWithParents.
  destruct (findSourceNode_result fuel b [source (fullStackFromBranch b)])
    as [(node & -> & Hn & Hin)|[_ Hall]]; [simpl; lia| |].
  - exists node. split; [done|]. split; [done|].
    apply Exists_cons in Hin as [Hin|Hin]; [done|].
    by apply Exists_nil in Hin.
  - rewrite Forall_singleton in Hall. by destruct (Hall x Hx).
Qed.

End SearchResults.

(** ** The stack builder: base discovery *)
Section SetSizes.
Import StackBuilder.

Lemma setAddAll_keeps_seen seen xs : ∃ k, setAddAll seen xs = seen ++ k.
Proof.
  revert seen. induction xs as [|x xs IH]; intros seen; simpl.
  - exists []. by rewrite app_nil_r.
  - case_decide; [apply IH|].
    destruct (IH (seen ++ [x])) as [k Hk]. exists (x :: k).
    by rewrite Hk, <- app_assoc.
Qed.

(** The names come out in the order of their first occurrence: of two
    names collected from [xs], the one listed first occurs in [xs] before
    every occurrence of the other. *)
Lemma setAddAll_order seen xs i j x y :
  NoDup seen →
  setAddAll seen xs !! i = Some x →
  setAddAll seen xs !! j = Some y →
  i < j →
  i < length seen
  ∨ ((x ∉ seen) ∧ (y ∉ seen)
     ∧ ∃ k, xs !! k = Some x ∧ ∀ k', xs !! k' = Some y → k < k').
Proof.
  revert seen. induction xs as [|a rest IH]; intros seen Hnd Hi Hj Hij.
  - simpl in *. left. apply lookup_lt_Some in Hj. lia.
  - simpl in Hi, Hj. case_decide as Ha.
    + destruct (IH seen Hnd Hi Hj Hij) as [?|(Hx & Hy & k & Hk & Hfirst)];
        [by left|right].
      split; [done|]. split; [done|]. exists (S k). split; [done|].
      intros [|k'] Hk'; simpl in Hk'; [congruence|].
      apply Hfirst in Hk'. lia.
    + assert (NoDup (seen ++ [a])) as Hnd'.
      { apply NoDup_app. split; [done|]. split; [|apply NoDup_singleton].
        by intros z Hz ->%list_elem_of_singleton. }
      pose proof (setAddAll_NoDup (seen ++ [a]) rest Hnd') as HndL.
      destruct (setAddAll_keeps_seen (seen ++ [a]) rest) as [tl Htl].
      assert (∀ m z, m ≤ length seen → (seen ++ [a]) !! m = Some z →
                     setAddAll (seen ++ [a]) rest !! m = Some z) as Hhead.
      { intros m z Hm Hz. rewrite Htl. apply lookup_app_l_Some. done. }
      destruct (IH (seen ++ [a]) Hnd' Hi Hj Hij)
        as [Hlt|(Hx & Hy & k & Hk & Hfirst)].
      * rewrite length_app in Hlt. simpl in Hlt.
        destruct (decide (i < length seen)) as [?|Hge]; [by left|right].
        assert (i = length seen) as -> by lia.
        assert (x = a) as ->.
        { pose proof (Hhead (length seen) a (Nat.le_refl _)) as Hh.
          rewrite lookup_app_r, Nat.sub_diag in Hh by lia.
          specialize (Hh eq_refl). congruence. }
        split; [done|]. split.
        -- intros [m Hm]%list_elem_of_lookup.
           pose proof (lookup_lt_Some _ _ _ Hm) as Hml.
           assert (setAddAll (seen ++ [a]) rest !! m = Some y) as Hm'.
           { apply Hhead; [lia|]. by apply lookup_app_l_Some. }
           pose proof (NoDup_lookup _ _ _ _ HndL Hm' Hj). lia.
        -- exists 0. split; [done|].
           intros [|k'] Hk'; [|lia]. simpl in Hk'. injection Hk' as ->.
           pose proof (NoDup_lookup _ _ _ _ HndL Hi Hj). lia.
      * right. rewrite not_elem_of_app in Hx, Hy.
        split; [tauto|]. split; [tauto|]. exists (S k). split; [done|].
        intros [|k'] Hk'; simpl in Hk'.
        -- injection Hk' as ->. destruct Hy as [_ Hy]. destruct Hy. left.
        -- apply Hfirst in Hk'. lia.
Qed.

End SetSizes.

Section BaseDiscoveryResults.
Import StackBuilder.

Variable fullStackFromBranch : Branch → Stack.
Variable getStackBaseBranch : Branch → Branch.
Variable allBranches : list Branch.
Variable ignoreBranches : list string.
Variable trunk : Branch.

Local Abbreviation isCandidate := (isCandidate ignoreBranches trunk).
Local Abbreviation allStackBaseNames :=
  (allStackBaseNames getStackBaseBranch allBranches ignoreBranches trunk).
Local Abbreviation allStacksFromTrunk :=
  (allStacksFromTrunk fullStackFromBranch getStackBaseBranch allBranches
     ignoreBranches trunk).

(** X20. Base discovery, whatever the abstract methods do: the bases it
    lists have pairwise different names, and a branch is listed exactly when
    it is the stack base of a branch that is neither ignored nor the trunk.
    A branch that is only the base of ignored branches or of the trunk is
    not listed. *)
Theorem base_discovery_is_deduplicated :
  NoDup (map name allStackBaseNames)
  ∧ ∀ base, base ∈ allStackBaseNames ↔
            ∃ b, b ∈ allBranches ∧ (name b ∉ ignoreBranches)
                 ∧ name b ≠ name trunk ∧ getStackBaseBranch b = base.
Proof.
  split.
  - unfold StackBuilder.allStackBaseNames. rewrite map_map. simpl.
    rewrite map_id. apply uniqueNames_NoDup.
  - intros base. rewrite allStackBaseNames_elem. split.
    + intros (b & [[? ?] ?]%list_elem_of_filter & ?). by exists b.
    + intros (b & ? & ? & ? & ?). exists b. split; [|done].
      by apply list_elem_of_filter.
Qed.

Local Abbreviation baseNames :=
  (map (λ b, name (getStackBaseBranch b)) (filter isCandidate allBranches)).

(** X21. [allStacksFromTrunk] returns the full stacks of the distinct stack
    base names of the branches outside the ignore set and the trunk, one
    stack for each name, in the order in which the names are first met: of
    two stacks returned, the one that comes first is that of the base name
    whose first occurrence comes before every occurrence of the other. *)
Theorem stacks_follow_the_candidates :
  ∃ names,
    allStacksFromTrunk = map (λ n, fullStackFromBranch {| name := n |}) names
    ∧ NoDup names
    ∧ (∀ n, n ∈ names ↔ n ∈ baseNames)
    ∧ ∀ i j x y,
        names !! i = Some x → names !! j = Some y → i < j →
        ∃ k, baseNames !! k = Some x
             ∧ ∀ k', baseNames !! k' = Some y → k < k'.
Proof.
  exists (uniqueNames baseNames).
  split; [|split; [apply uniqueNames_NoDup|split; [apply uniqueNames_elem|]]].
  - unfold StackBuilder.allStacksFromTrunk, StackBuilder.allStackBaseNames.
    by rewrite map_map.
  - intros i j x y Hi Hj Hij.
    destruct (setAddAll_order [] baseNames i j x y NoDup_nil_2 Hi Hj Hij)
      as [Hlt|(_ & _ & Hk)]; [simpl in Hlt; lia|done].
Qed.

End BaseDiscoveryResults.

(** ** The stack builder: the search for a branch that is missing *)
Section SearchMisses.
Import StackBuilder.

Variable fullStackFromBranch : Branch → Stack.

(** X19. When no branch of the full stack carries the name asked for,
    [upstackInclusiveFromBranchWithParents] hands back the full stack as it
    was built, without an error: the stack returned has a source that is not
    the branch asked for. *)
Theorem upstack_with_parents_missing_branch fuel b :
  nodeSize (source (fullStackFromBranch b)) < fuel →
  (∀ x, x ∈ stackBranches (fullStackFromBranch b) → name x ≠ name b) →
  upstackInclusiveFromBranchWithParents fullStackFromBranch fuel b =
    Some (Ok (fullStackFromBranch b))
  ∧ name (branch (source (fullStackFromBranch b))) ≠ name b.
Proof.
  intros Hf Hnone. split.
  - unfold upstackInclusiveFromBranchWithParents.
    rewrite findSourceNode_not_found; [done| |].
    + simpl. lia.
    + by apply Forall_singleton.
  - apply Hnone. unfold stackBranches.
    destruct (source (fullStackFromBranch b)) as [nb ps cs]. simpl. left.
Qed.

End SearchMisses.

Section SearchExamples.
Import StackBuilder.

Lemma upstack_with_parents_returns_witness :
  ∃ st, upstackInclusiveFromBranchWithParents (λ _, strayStack) 5 (br "a")
        = Some (Ok st)
        ∧ source st ∈ subnodes (source strayStack).
Proof.
  apply (upstack_with_parents_returns (λ _, strayStack) 5 (br "a")).
  simpl. lia.
Defined.

Lemma upstack_with_parents_finds_witness :
  ∃ node, upstackInclusiveFromBranchWithParents (λ _, strayStack) 5 (br "a")
          = Some (Ok {| source := node |})
          ∧ name (branch node) = name (br "a")
          ∧ node ∈ subnodes (source strayStack).
Proof.
  apply (upstack_with_parents_finds (λ _, strayStack) 5 (br "a") (br "a")).
  - simpl. lia.
  - simpl. right. left.
  - reflexivity.
Defined.

Lemma upstack_with_parents_missing_branch_witness :
  upstackInclusiveFromBranchWithParents (λ _, strayStack) 5 (br "feature") =
    Some (Ok strayStack)
  ∧ name (branch (source strayStack)) ≠ name (br "feature").
Proof.
  apply (upstack_with_parents_missing_branch (λ _, strayStack) 5
           (br "feature")).
  - simpl. lia.
  - intros x Hin. simpl in Hin.
    repeat (apply elem_of_cons in Hin as [->|Hin]; [done|]).
    by apply elem_of_nil in Hin.
Defined.

End SearchExamples.

(** ** The stack builder: expansion without parents *)
Section ExpansionResults.
Import StackBuilder.

Variable getChildrenForBranch : Branch → list Branch.

Local Abbreviation descends := (descends getChildrenForBranch).
Local Abbreviation expandNodes := (expandNodes getChildrenForBranch).

Lemma descends_trans b c x : descends b c → descends c x → descends b x.
Proof.
  intros Hbc Hcx. induction Hcx as [|y z _ IH Hz]; [done|].
  by apply (descends_child _ _ y).
Qed.

(** The two traversals of a tree meet the same nodes. *)
Lemma lastChildFirst_nodeBranches k n :
  nodeSize n ≤ k → lastChildFirst n ≡ₚ nodeBranches n.
Proof.
  revert n. induction k as [|k IH]; intros [b ps cs] Hk; simpl in *; [lia|].
  constructor. apply le_S_n in Hk.
  induction cs as [|c cs IHcs]; simpl in *; [done|].
  rewrite reverse_cons, concat_app. simpl. rewrite app_nil_r.
  rewrite Permutation_app_comm.
  apply Permutation_app; [apply IH; lia|apply IHcs; lia].
Qed.

(** On a graph with a cycle the pending list never empties. *)
Lemma expandNodes_never_ends (P : Branch → Prop) :
  (∀ x, P x → ∃ c, c ∈ getChildrenForBranch x ∧ P c) →
  ∀ fuel heap nodes visited,
    (∃ r c, r ∈ nodes ∧ heap !! r = Some c ∧ P (c_branch c)) →
    expandNodes fuel heap nodes visited = None.
Proof.
  intros Hclosed.
  induction fuel as [|fuel IH];
    intros heap nodes visited (r & c & Hr & Hc & HP); [done|].
  cbn [StackBuilder.expandNodes].
  destruct (snoc_inv nodes) as (rest & cur & ->).
  { intros ->. by apply elem_of_nil in Hr. }
  rewrite pop_snoc.
  destruct (heap !! cur) as [curNode|] eqn:Hcur; [|done].
  cbv zeta.
  pose proof (step_keeps getChildrenForBranch heap cur curNode Hcur) as Hkeep.
  pose proof (step_fresh getChildrenForBranch heap cur curNode Hcur) as Hfresh.
  cbv zeta in Hkeep, Hfresh.
  change (map ?f (getChildrenForBranch (c_branch curNode)))
    with (f <$> getChildrenForBranch (c_branch curNode)).
  set (kids := getChildrenForBranch (c_branch curNode)) in *.
  set (fresh := seq (length heap) (length kids)) in *.
  set (heap' := <[cur := setChildren fresh curNode]> (heap ++ _)) in *.
  assert (∃ r' c', r' ∈ rest ++ fresh ∧ heap' !! r' = Some c'
                   ∧ P (c_branch c')) as Hnext.
  { apply elem_of_app in Hr as [Hr|Hr%list_elem_of_singleton].
    - destruct (Hkeep r c Hc) as (c' & Hc' & Hb & _).
      exists r, c'. split; [apply elem_of_app; by left|].
      split; [done|by rewrite Hb].
    - subst r. rewrite Hcur in Hc. injection Hc as ->.
      destruct (Hclosed _ HP) as (child & Hchild & HPchild).
      apply list_elem_of_lookup in Hchild as [k Hk].
      eexists (length heap + k), _. split; [|split; [by apply Hfresh|done]].
      apply elem_of_app. right. apply elem_of_seq.
      apply lookup_lt_Some in Hk. unfold kids. lia. }
  destruct (rest ++ fresh) as [|n0 nodes0].
  - destruct Hnext as (r' & _ & Hr' & _). by apply elem_of_nil in Hr'.
  - by apply IH.
Qed.

(** X23. On a branch graph with a cycle below the branch asked for, the
    loop of [upstackInclusiveFromBranchWithoutParents] does not end: whatever
    the number of iterations allowed, nodes are still pending when it is
    reached, and no stack is returned. *)
Theorem expansion_never_ends_on_a_cycle (P : Branch → Prop) b :
  P b →
  (∀ x, P x → ∃ c, c ∈ getChildrenForBranch x ∧ P c) →
  ∀ fuel,
    upstackInclusiveFromBranchWithoutParents getChildrenForBranch fuel b = None
    ∧ expansionOrder getChildrenForBranch fuel b = None.
Proof.
  intros HP Hclosed fuel.
  unfold upstackInclusiveFromBranchWithoutParents, expansionOrder.
  rewrite (expandNodes_never_ends P Hclosed); [done|].
  exists 0, (sourceCell b). split; [left|]. by split.
Qed.

Section AcyclicResults.

Variable rank : Branch → nat.
Hypothesis rank_decreases :
  ∀ b c, c ∈ getChildrenForBranch b → rank c < rank b.

Local Abbreviation fullTree := (fullTree getChildrenForBranch rank).

Lemma fullTree_branches ps b :
  nodeBranches (fullTree ps b) =
    b :: concat (map (λ c, nodeBranches (fullTree [] c))
                   (getChildrenForBranch b)).
Proof.
  rewrite (fullTree_eq _ _ rank_decreases). simpl. f_equal.
  rewrite map_map. f_equal. apply map_ext. intros c.
  by rewrite (fullTree_eq _ _ rank_decreases [b]),
             (fullTree_eq _ _ rank_decreases []).
Qed.

Lemma fullTree_child_branches b c x :
  c ∈ getChildrenForBranch b →
  x ∈ nodeBranches (fullTree [] c) →
  x ∈ nodeBranches (fullTree [] b).
Proof.
  intros Hc Hx. rewrite (fullTree_branches [] b). right.
  apply list_elem_of_In, in_concat.
  exists (nodeBranches (fullTree [] c)). split; [|by apply list_elem_of_In].
  apply in_map_iff. exists c. split; [done|by apply list_elem_of_In].
Qed.

Lemma fullTree_branches_inv b x :
  x ∈ nodeBranches (fullTree [] b) →
  x = b ∨ ∃ c, c ∈ getChildrenForBranch b ∧ x ∈ nodeBranches (fullTree [] c).
Proof.
  rewrite fullTree_branches. intros [->|Hx]%elem_of_cons; [by left|right].
  apply list_elem_of_In, in_concat in Hx as (l & Hl & Hx).
  apply in_map_iff in Hl as (c & <- & Hc).
  exists c. split; by apply list_elem_of_In.
Qed.

Lemma fullTree_closed b y c :
  y ∈ nodeBranches (fullTree [] b) →
  c ∈ getChildrenForBranch y →
  c ∈ nodeBranches (fullTree [] b).
Proof.
  remember (rank b) as n eqn:E. revert b E.
  induction n as [n IH] using lt_wf_ind. intros b -> Hy Hc.
  apply fullTree_branches_inv in Hy as [->|(c' & Hc' & Hy)].
  - apply (fullTree_child_branches _ c); [done|].
    rewrite fullTree_branches. left.
  - apply (fullTree_child_branches _ c'); [done|].
    by apply (IH (rank c')); [apply rank_decreases|..].
Qed.

Lemma fullTree_holds_descendants b x :
  x ∈ nodeBranches (fullTree [] b) ↔ descends b x.
Proof.
  split.
  - remember (rank b) as n eqn:E. revert b E.
    induction n as [n IH] using lt_wf_ind. intros b -> Hx.
    apply fullTree_branches_inv in Hx as [->|(c & Hc & Hx)]; [constructor|].
    apply (descends_trans b c).
    + by apply (descends_child _ _ b); [constructor|].
    + by apply (IH (rank c)); [apply rank_decreases|..].
  - induction 1 as [|y c _ IHy Hc].
    + rewrite fullTree_branches. left.
    + by apply (fullTree_closed b y c).
Qed.

(** With fuel for one iteration per node, the loop ends and the heap reads
    back as the full tree. *)
Lemma expansion_result b fuel :
  nodeSize (fullTree [] b) < fuel →
  upstackInclusiveFromBranchWithoutParents getChildrenForBranch fuel b =
    Some {| source := fullTree [] b |}
  ∧ expansionOrder getChildrenForBranch fuel b =
      Some (lastChildFirst (fullTree [] b)).
Proof.
  intros Hfuel.
  destruct (expandNodes_run getChildrenForBranch rank rank_decreases
              fuel [sourceCell b] [0] [b] [])
    as (heap' & Hrun & (_ & _ & Hdone) & Hkeep).
  { split; [apply NoDup_singleton|]. split.
    - intros r ->%list_elem_of_singleton. by eexists.
    - intros [|r] c Hr Hnot; [by destruct Hnot; left|done]. }
  { constructor; [by eexists|constructor]. }
  { simpl. lia. }
  destruct (Hkeep 0 (sourceCell b) eq_refl) as (c0 & H0 & Hb0 & Hp0).
  simpl in Hrun, Hb0, Hp0. rewrite app_nil_r in Hrun.
  unfold upstackInclusiveFromBranchWithoutParents, expansionOrder.
  rewrite Hrun. simpl.
  rewrite (toTree_fullTree getChildrenForBranch rank rank_decreases
             heap' fuel 0 c0);
    [|intros r c Hr; apply Hdone; [done|apply not_elem_of_nil]
     |done|rewrite Hb0; lia].
  by rewrite Hb0, Hp0.
Qed.

(** X22. On a finite acyclic branch graph, the stack that
    [upstackInclusiveFromBranchWithoutParents] returns holds exactly the
    branches reached from the given branch by following child links, the
    branch itself included; and the children lookup is made once for each
    node of that stack. *)
Theorem expansion_collects_descendants b fuel :
  nodeSize (fullTree [] b) < fuel →
  ∃ st order,
    upstackInclusiveFromBranchWithoutParents getChildrenForBranch fuel b
    = Some st
    ∧ (∀ x, x ∈ stackBranches st ↔ descends b x)
    ∧ expansionOrder getChildrenForBranch fuel b = Some order
    ∧ order ≡ₚ stackBranches st.
Proof.
  intros Hfuel. destruct (expansion_result b fuel Hfuel) as [Hrun Hord].
  exists {| source := fullTree [] b |}, (lastChildFirst (fullTree [] b)).
  split; [done|]. split; [apply fullTree_holds_descendants|].
  split; [done|]. by apply (lastChildFirst_nodeBranches _ _ (Nat.le_refl _)).
Qed.

End AcyclicResults.

End ExpansionResults.

Section ExpansionExamples.
Import StackBuilder.

Lemma expansion_collects_descendants_witness :
  ∃ st order,
    upstackInclusiveFromBranchWithoutParents demoChildren 10 (br "a") = Some st
    ∧ (∀ x, x ∈ stackBranches st ↔ descends demoChildren (br "a") x)
    ∧ expansionOrder demoChildren 10 (br "a") = Some order
    ∧ order ≡ₚ stackBranches st.
Proof.
  apply (expansion_collects_descendants demoChildren demoRank
           demoRank_decreases (br "a") 10).
  vm_compute. lia.
Defined.

Lemma expansion_never_ends_on_a_cycle_witness :
  upstackInclusiveFromBranchWithoutParents cyclicChildren 50 (br "x") = None
  ∧ expansionOrder cyclicChildren 50 (br "x") = None.
Proof.
  apply (expansion_never_ends_on_a_cycle cyclicChildren onCycle (br "x")).
  - by left.
  - intros x [Hx|Hx]; unfold cyclicChildren; rewrite Hx; simpl.
    + exists (br "y"). split; [left|by right].
    + exists (br "x"). split; [left|by left].
Defined.

End ExpansionExamples.
